(** * Skill Compass: the career recommendation handler

    A shallow embedding of [backend/src/controllers/careerController.js]
    ([recommendCareer]) together with the parts of the JavaScript run time
    it relies on: numbers, plain objects, arrays living in a store, the
    array methods [map], [filter], [find], [sort], [slice], [includes],
    and [Math.round] over double-precision arithmetic.

    The two data files ([data/roles.json], [data/skills.json]) and the
    scoring function ([utils/scoring.js]) are not part of the sources at
    hand: the tables are whatever the store holds at the locations bound
    to [roles] and [skillsData], and [calculateScore] is a parameter. *)

From Stdlib Require Import ZArith QArith List Lia Lqa Floats Sorted Permutation.
From stdpp Require Import gmap strings list fin_maps.

Set Warnings "-register-all".
Local Open Scope Z_scope.

(** ** Numbers *)

(** A JavaScript number: a finite double (read as the rational it denotes;
    the two zeros are not told apart), an infinity, or NaN. *)
Inductive Number : Type :=
  | NaN
  | NegInf
  | Fin (q : Q)
  | PosInf.

(** [x - y].  On finite operands the double result has the sign of the
    exact difference (gradual underflow, and overflow keeps the sign); the
    handler only ever looks at that sign, so the exact difference stands
    for the rounded one. *)
Definition Number_sub (x y : Number) : Number :=
  match x, y with
  | NaN, _ | _, NaN => NaN
  | PosInf, PosInf | NegInf, NegInf => NaN
  | PosInf, _ | _, NegInf => PosInf
  | NegInf, _ | _, PosInf => NegInf
  | Fin a, Fin b => Fin (a - b)
  end.

(** The sign a sort looks at: a NaN returned by the comparison function
    counts as [+0] (ECMAScript SortCompare). *)
Definition sort_sign (v : Number) : comparison :=
  match v with
  | NaN => Eq
  | NegInf => Lt
  | PosInf => Gt
  | Fin q => (q ?= 0)%Q
  end.

(** ** Double-precision arithmetic for the match percentage

    The values that occur are non-negative: quotients of array lengths and
    their product with 100.  A finite double is written [mant * 2 ^ expo]. *)
Inductive double : Type :=
  | DNaN
  | DInf
  | DFin (mant expo : Z).

(** Round the non-negative fraction [n / d] to the nearest integer, ties to
    even. *)
Definition rne (n d : Z) : Z :=
  let q := n / d in
  let r := n mod d in
  if 2 * r <? d then q
  else if d <? 2 * r then q + 1
  else if Z.even q then q else q + 1.

(** [floor (log2 (n / d))] for [0 < n], [0 < d]. *)
Definition floor_log2_ratio (n d : Z) : Z :=
  let k := Z.log2 n - Z.log2 d in
  if (if 0 <=? k then d * 2 ^ k <=? n else d <=? n * 2 ^ (- k))
  then k else k - 1.

(** Is [m * 2 ^ e] at least [2 ^ 1024]? *)
Definition overflows (m e : Z) : bool :=
  if 0 <=? e then 2 ^ 1024 <=? m * 2 ^ e else 2 ^ (1024 - e) <=? m.

(** IEEE 754 binary64 round-to-nearest-even of the fraction [n / d]
    ([0 <= n], [0 < d]): 53 significant bits, the exponent of the last bit
    not below [-1074] (subnormals), overflow to infinity. *)
Definition round_b64 (n d : Z) : double :=
  if n =? 0 then DFin 0 0
  else
    let ex := Z.max (floor_log2_ratio n d - 52) (-1074) in
    let m := if 0 <=? ex then rne n (d * 2 ^ ex) else rne (n * 2 ^ (- ex)) d in
    if overflows m ex then DInf else DFin m ex.

(** The length of an array as a number.  Exact: a length is below [2 ^ 32]. *)
Definition double_of_nat (n : nat) : double := DFin (Z.of_nat n) 0.

(** [x / y] on non-negative operands. *)
Definition double_div (x y : double) : double :=
  match x, y with
  | DNaN, _ | _, DNaN => DNaN
  | DInf, DInf => DNaN
  | DInf, DFin _ _ => DInf
  | DFin _ _, DInf => DFin 0 0
  | DFin a ea, DFin b eb =>
      if b =? 0 then (if a =? 0 then DNaN else DInf)
      else round_b64 (a * 2 ^ Z.max (ea - eb) 0) (b * 2 ^ Z.max (eb - ea) 0)
  end.

(** [x * y] on non-negative operands. *)
Definition double_mul (x y : double) : double :=
  match x, y with
  | DNaN, _ | _, DNaN => DNaN
  | DInf, DInf => DInf
  | DInf, DFin m _ | DFin m _, DInf => if m =? 0 then DNaN else DInf
  | DFin a ea, DFin b eb =>
      let e := ea + eb in
      round_b64 (a * b * 2 ^ Z.max e 0) (2 ^ Z.max (- e) 0)
  end.

(** [Math.round]: the integer nearest to the argument, a tie going to the
    larger one; that is [floor (x + 1/2)] computed exactly. *)
Definition Math_round (x : double) : Number :=
  match x with
  | DNaN => NaN
  | DInf => PosInf
  | DFin m e =>
      Fin (inject_Z (if 0 <=? e then m * 2 ^ e
                     else (2 * m + 2 ^ (- e)) / 2 ^ (- e + 1)))
  end.

(** [Math.round((matchCount / totalRequired) * 100)]. *)
Definition matchPercentage (matchCount totalRequired : nat) : Number :=
  Math_round
    (double_mul (double_div (double_of_nat matchCount) (double_of_nat totalRequired))
                (DFin 100 0)).

(** The same expression evaluated with the machine's own binary64
    operations, and the integer [Math.round] makes of the outcome. *)
Definition machine_percentage (m t : Z) : float :=
  PrimFloat.mul (PrimFloat.div (PrimFloat.of_uint63 (Uint63.of_Z m))
                               (PrimFloat.of_uint63 (Uint63.of_Z t)))
                (PrimFloat.of_uint63 (Uint63.of_Z 100)).

Definition machine_round (x : float) : option Z :=
  match Prim2SF x with
  | S754_zero _ => Some 0
  | S754_finite false m e =>
      Some (if 0 <=? e then Zpos m * 2 ^ e
            else (2 * Zpos m + 2 ^ (- e)) / 2 ^ (- e + 1))
  | _ => None
  end.

(** Rounding the exact ratio instead: [floor (100 * m / t + 1/2)], which
    for a non-negative ratio is round-half-away-from-zero. *)
Definition exact_percentage (m t : nat) : Z :=
  (200 * Z.of_nat m + Z.of_nat t) / (2 * Z.of_nat t).

(** ** Values and plain objects *)

(** A value held by value: what a JSON file or a request body can contain,
    numbers being run-time numbers. *)
Inductive JVal : Type :=
  | JNull
  | JBool (b : bool)
  | JNum (n : Number)
  | JStr (s : string)
  | JArr (items : list JVal)
  | JObj (props : list (string * JVal)).

(** A plain object: its own properties in the order they were created.
    (Keys that look like array indices, which JavaScript enumerates first,
    get no special treatment.) *)
Definition Obj : Type := list (string * JVal).

(** [o.k]; [None] is [undefined]. *)
Fixpoint obj_get (k : string) (o : Obj) : option JVal :=
  match o with
  | [] => None
  | (k', v) :: o' => if String.eqb k k' then Some v else obj_get k o'
  end.

(** Define property [k] as [v]: an existing property keeps its place and
    takes the new value, a new one goes last. *)
Fixpoint obj_set (k : string) (v : JVal) (o : Obj) : Obj :=
  match o with
  | [] => [(k, v)]
  | (k', v') :: o' =>
      if String.eqb k k' then (k, v) :: o' else (k', v') :: obj_set k v o'
  end.

(** [{ ...target, ...source }]: the own properties of [source] are copied
    onto [target] in order; spreading [undefined] copies nothing. *)
Definition obj_spread (target : Obj) (source : option Obj) : Obj :=
  match source with
  | None => target
  | Some s => fold_left (fun acc kv => obj_set (fst kv) (snd kv) acc) s target
  end.

(** ** The store: arrays are shared, mutable objects *)

Definition loc : Type := positive.

(** An element of [roles.json]: [{ role, requiredSkills }], the second
    field a reference to an array of skill names. *)
Record Role : Type := { role : string; requiredSkills : loc }.

(** The record the role-matching callback builds:
    [{ role, matchCount, totalRequired }]. *)
Record RoleMatch : Type :=
  { match_role : string; matchCount : nat; totalRequired : nat }.

(** An array, by the kind of its elements.  The Roles table is an array of
    role objects, a [requiredSkills] array and its filtered copies are
    arrays of strings, the Skills table and the recommended entries are
    arrays of plain objects: role and skill names are strings, as the data
    model has them. *)
Inductive Array : Type :=
  | ARoles (l : list Role)
  | AStrings (l : list string)
  | AMatches (l : list RoleMatch)
  | AObjects (l : list Obj).

Definition array_length (a : Array) : nat :=
  match a with
  | ARoles l => length l
  | AStrings l => length l
  | AMatches l => length l
  | AObjects l => length l
  end.

(** The kinds of element an array is used at. *)
Class Element (A : Type) : Type :=
  { to_array : list A -> Array;
    of_array : Array -> option (list A);
    of_to_array : forall l, of_array (to_array l) = Some l;
    to_array_length : forall l, array_length (to_array l) = length l }.

#[export] Instance Element_Role : Element Role :=
  {| to_array := ARoles;
     of_array := fun a => match a with ARoles l => Some l | _ => None end;
     of_to_array := fun _ => eq_refl;
     to_array_length := fun _ => eq_refl |}.

#[export] Instance Element_string : Element string :=
  {| to_array := AStrings;
     of_array := fun a => match a with AStrings l => Some l | _ => None end;
     of_to_array := fun _ => eq_refl;
     to_array_length := fun _ => eq_refl |}.

#[export] Instance Element_RoleMatch : Element RoleMatch :=
  {| to_array := AMatches;
     of_array := fun a => match a with AMatches l => Some l | _ => None end;
     of_to_array := fun _ => eq_refl;
     to_array_length := fun _ => eq_refl |}.

#[export] Instance Element_Obj : Element Obj :=
  {| to_array := AObjects;
     of_array := fun a => match a with AObjects l => Some l | _ => None end;
     of_to_array := fun _ => eq_refl;
     to_array_length := fun _ => eq_refl |}.

Abbreviation Store := (gmap loc Array).

(** How a computation ends: with a value, with a [TypeError] thrown, or
    stuck because the store does not have the shape the data model gives
    the tables (an array of another element kind, a dangling reference). *)
Inductive Outcome (A : Type) : Type :=
  | Ok (a : A)
  | Throw
  | Stuck.
Arguments Ok {A} a.
Arguments Throw {A}.
Arguments Stuck {A}.

Definition M (A : Type) : Type := Store -> Store * Outcome A.

Definition ret {A} (a : A) : M A := fun s => (s, Ok a).

Definition bind {A B} (m : M A) (k : A -> M B) : M B :=
  fun s =>
    match m s with
    | (s', Ok a) => k a s'
    | (s', Throw) => (s', Throw)
    | (s', Stuck) => (s', Stuck)
    end.

Notation "'let*' x := m 'in' k" := (bind m (fun x => k))
  (at level 10, x binder, k at level 200).

(** Reading a property of [undefined] throws. *)
Definition deref {A} (o : option A) : M A :=
  fun s => match o with Some a => (s, Ok a) | None => (s, Throw) end.

Definition Array_read {A} `{Element A} (a : loc) : M (list A) :=
  fun s =>
    match s !! a with
    | Some arr =>
        match of_array arr with
        | Some l => (s, Ok l)
        | None => (s, Stuck)
        end
    | None => (s, Stuck)
    end.

(** A new array gets a location no array of the store has. *)
Definition Array_new {A} `{Element A} (l : list A) : M loc :=
  fun s => let a := fresh (dom s) in (<[a := to_array l]> s, Ok a).

Definition Array_write {A} `{Element A} (a : loc) (l : list A) : M unit :=
  fun s => (<[a := to_array l]> s, Ok tt).

Fixpoint mapM {A B} (f : A -> M B) (l : list A) : M (list B) :=
  match l with
  | [] => ret []
  | x :: l' => let* y := f x in let* ys := mapM f l' in ret (y :: ys)
  end.

Fixpoint filterM {A} (p : A -> M bool) (l : list A) : M (list A) :=
  match l with
  | [] => ret []
  | x :: l' => let* b := p x in let* ys := filterM p l' in ret (if b then x :: ys else ys)
  end.

Fixpoint findM {A} (p : A -> M bool) (l : list A) : M (option A) :=
  match l with
  | [] => ret None
  | x :: l' => let* b := p x in if b then ret (Some x) else findM p l'
  end.

(** [a.length] *)
Definition Array_length (a : loc) : M nat :=
  fun s =>
    match s !! a with
    | Some arr => (s, Ok (array_length arr))
    | None => (s, Stuck)
    end.

(** [a[i]]; [None] is [undefined]. *)
Definition Array_get {A} `{Element A} (a : loc) (i : nat) : M (option A) :=
  let* xs := Array_read a in ret (xs !! i).

(** [a.map(f)]: a new array. *)
Definition Array_map {A B} `{Element A} `{Element B}
    (a : loc) (f : A -> M B) : M loc :=
  let* xs := Array_read a in let* ys := mapM f xs in Array_new ys.

(** [a.filter(p)]: a new array. *)
Definition Array_filter {A} `{Element A} (a : loc) (p : A -> M bool) : M loc :=
  let* xs := Array_read a in let* ys := filterM p xs in Array_new ys.

(** [a.find(p)]: the first element [p] accepts, or [undefined]. *)
Definition Array_find {A} `{Element A} (a : loc) (p : A -> M bool) : M (option A) :=
  let* xs := Array_read a in findM p xs.

(** [a.slice(start, end)] for non-negative indices: a new array. *)
Definition Array_slice {A} `{Element A} (a : loc) (first last : nat) : M loc :=
  let* xs := Array_read a in Array_new (A := A) (take (last - first) (drop first xs)).

(** The order [sort] must produce when the comparison function is
    consistent: sorted, elements that compare equal in their original
    order.  [x] goes behind [y] only when [cmp x y > 0].  (For a comparison
    function that is not consistent the language leaves the order to the
    implementation.) *)
Fixpoint sort_insert {A} (cmp : A -> A -> Number) (x : A) (l : list A) : list A :=
  match l with
  | [] => [x]
  | y :: l' =>
      match sort_sign (cmp x y) with
      | Gt => y :: sort_insert cmp x l'
      | _ => x :: l
      end
  end.

Definition stable_sort {A} (cmp : A -> A -> Number) (l : list A) : list A :=
  foldr (sort_insert cmp) [] l.

(** [a.sort(cmp)]: sorts the array in place and returns that same array.
    What is written is the order a consistent comparison function
    determines.  Where the comparison function can be inconsistent (a score
    that is NaN), a property that speaks of the order of the outcome states
    the consistency as a premise. *)
Definition Array_sort {A} `{Element A} (a : loc) (cmp : A -> A -> Number) : M loc :=
  let* xs := Array_read a in let* _ := Array_write a (stable_sort cmp xs) in ret a.

(** Neither of [m], [y] is sent behind the other by [cmp]: the two are of
    one rank. *)
Definition same_rank {A} (cmp : A -> A -> Number) (m y : A) : bool :=
  match sort_sign (cmp y m), sort_sign (cmp m y) with
  | Gt, _ | _, Gt => false
  | _, _ => true
  end.

(** [xs.includes(x)] on an array of strings held by the request. *)
Definition includes (xs : list string) (x : string) : bool :=
  existsb (String.eqb x) xs.

(** ** Specifications of computations *)

(** [hoare P m Q]: from a store satisfying [P] the computation [m] returns
    a value (it neither throws nor gets stuck), and value and final store
    satisfy [Q]. *)
Definition hoare {A} (P : Store -> Prop) (m : M A) (Q : A -> Store -> Prop) : Prop :=
  forall s, P s -> exists s' a, m s = (s', Ok a) /\ Q a s'.

(** [keeps s0 m Q]: whatever the outcome, [m] leaves every array of [s0]
    as it is, provided the store it starts from still has them; a returned
    value satisfies [Q]. *)
Definition keeps {A} (s0 : Store) (m : M A) (Q : A -> Prop) : Prop :=
  forall s, s0 ⊆ s ->
    s0 ⊆ fst (m s) /\ forall a, snd (m s) = Ok a -> Q a.

(** ** The handler *)

(** The parsed body of a request: its [skills] field, an array of strings
    when there is one. *)
Record Request : Type := { skills : option (list string) }.

Record Response : Type := { status : nat; body : JVal }.

(** [res.status(code).json(v)] and [res.json(v)] (status 200). *)
Definition res_status_json (code : nat) (v : JVal) : Response :=
  {| status := code; body := v |}.
Definition res_json (v : JVal) : Response := res_status_json 200 v.

Definition nat_Number (n : nat) : Number := Fin (inject_Z (Z.of_nat n)).

(** Modelled from the spec: [calculateScore] of [utils/scoring.js], which is
    not among the sources.  The spec (4.2) fixes no formula, only a
    contract: the function maps the metadata record of a skill, possibly
    absent, to a number, and "must not fail or throw for metadata with
    missing optional fields".  It is therefore a total function from the
    result of the metadata lookup ([None] when the lookup found nothing) to
    a number, and a parameter of the handler. *)
Definition ScoringFunction : Type := option Obj -> Number.

Section Controller.

(** The module-level bindings: the two imported tables and the scoring
    function. *)
Variable roles : loc.
Variable skillsData : loc.
Variable calculateScore : ScoringFunction.

(** What the run time makes of a string, an array or an object used as
    a number. *)
Variable coerce : JVal -> Number.

Definition ToNumber (v : option JVal) : Number :=
  match v with
  | None => NaN
  | Some JNull => Fin 0
  | Some (JBool b) => Fin (if b then 1 else 0)
  | Some (JNum n) => n
  | Some v => coerce v
  end.

(** [s.name === skill] *)
Definition name_is (skill : string) (s : Obj) : bool :=
  match obj_get "name" s with
  | Some (JStr n) => String.eqb n skill
  | _ => false
  end.

(** [{ skill, score, ...skillInfo }] *)
Definition recommendation (skill : string) (score : Number)
    (skillInfo : option Obj) : Obj :=
  obj_spread [("skill", JStr skill); ("score", JNum score)] skillInfo.

(** [(a, b) => b.matchCount - a.matchCount] *)
Definition by_matchCount (a b : RoleMatch) : Number :=
  Number_sub (nat_Number (matchCount b)) (nat_Number (matchCount a)).

(** [(a, b) => b.score - a.score] *)
Definition by_score (a b : Obj) : Number :=
  Number_sub (ToNumber (obj_get "score" b)) (ToNumber (obj_get "score" a)).

(** [const matchedRole = roles.map(...).sort(...)[0]] *)
Definition matchedRole (userSkills : list string) : M (option RoleMatch) :=
  let* scored := Array_map roles (fun role0 : Role =>
    let* matchedSkills := Array_filter (requiredSkills role0)
                            (fun skill : string => ret (includes userSkills skill)) in
    let* n := Array_length matchedSkills in
    let* t := Array_length (requiredSkills role0) in
    ret {| match_role := role role0; matchCount := n; totalRequired := t |}) in
  let* sorted := Array_sort scored by_matchCount in
  Array_get sorted 0.

(** [const targetRole = roles.find(r => r.role === matchedRole.role)] *)
Definition targetRole (matchedRole : option RoleMatch) : M (option Role) :=
  Array_find roles (fun r : Role =>
    let* m := deref matchedRole in ret (String.eqb (role r) (match_role m))).

(** [const missingSkills = targetRole.requiredSkills.filter(...).map(...)] *)
Definition missingSkills (userSkills : list string) (targetRole : option Role) : M loc :=
  let* target := deref targetRole in
  let* missing := Array_filter (requiredSkills target)
                    (fun skill : string => ret (negb (includes userSkills skill))) in
  Array_map missing (fun skill : string =>
    let* skillInfo := Array_find skillsData (fun s : Obj => ret (name_is skill s)) in
    let score := calculateScore skillInfo in
    ret (recommendation skill score skillInfo)).

(** [const sortedRecommendations = missingSkills.sort(...)] *)
Definition sortedRecommendations (missingSkills : loc) : M loc :=
  Array_sort missingSkills by_score.

(** The object handed to [res.json]. *)
Definition result_body (m : RoleMatch) (recommended : list Obj) : JVal :=
  JObj [("role", JStr (match_role m));
        ("matchPercentage", JNum (matchPercentage (matchCount m) (totalRequired m)));
        ("recommendedSkills", JArr (map JObj recommended))].

Definition recommendCareer (req : Request) : M Response :=
  let userSkills := default [] (skills req) in
  if negb (0 <? length userSkills)%nat then
    ret (res_status_json 400 (JObj [("message", JStr "Skills are required")]))
  else
    let* matchedRole := matchedRole userSkills in
    let* targetRole := targetRole matchedRole in
    let* missingSkills := missingSkills userSkills targetRole in
    let* sortedRecommendations := sortedRecommendations missingSkills in
    let* m := deref matchedRole in
    let* top := Array_slice (A := Obj) sortedRecommendations 0 3 in
    let* recommendedSkills := Array_read (A := Obj) top in
    ret (res_json (result_body m recommendedSkills)).

(** *** The tables, and the handler's steps as functions of them *)

(** The store holds the Roles table [R] (each role object paired with the
    contents of its [requiredSkills] array) and the Skills table [S]. *)
Definition tables_at (s : Store) (R : list (Role * list string)) (S : list Obj) : Prop :=
  s !! roles = Some (ARoles (map fst R)) /\
  Forall (fun x => s !! requiredSkills (fst x) = Some (AStrings (snd x))) R /\
  s !! skillsData = Some (AObjects S).

(** The role-matching callback, on a role and the contents of its
    [requiredSkills]. *)
Definition roleMatch (userSkills : list string) (x : Role * list string) : RoleMatch :=
  {| match_role := role (fst x);
     matchCount := length (List.filter (includes userSkills) (snd x));
     totalRequired := length (snd x) |}.

Definition skills_of (s : Store) (r : Role) : list string :=
  match s !! requiredSkills r with
  | Some (AStrings ss) => ss
  | _ => []
  end.

(** The missing-skill callback, on a skill name. *)
Definition skillEntry (S : list Obj) (skill : string) : Obj :=
  let skillInfo := List.find (name_is skill) S in
  recommendation skill (calculateScore skillInfo) skillInfo.

Definition missing_of (userSkills ss : list string) : list string :=
  List.filter (fun skill => negb (includes userSkills skill)) ss.

Definition same_role (m : RoleMatch) (r : Role) : bool :=
  String.eqb (role r) (match_role m).

(** What the handler answers on non-empty [userSkills], as a function of
    the tables. *)
Definition answer (userSkills : list string) (R : list (Role * list string))
    (S : list Obj) : Outcome Response :=
  match stable_sort by_matchCount (map (roleMatch userSkills) R) !! 0%nat with
  | None => Throw
  | Some m =>
      match List.find (fun x => same_role m (fst x)) R with
      | None => Throw
      | Some x =>
          Ok (res_json (result_body m
                (take 3 (stable_sort by_score
                   (map (skillEntry S) (missing_of userSkills (snd x)))))))
      end
  end.

(** The entries the handler returns for the role [y] it took the required
    skills from. *)
Definition ranked (S : list Obj) (us : list string) (y : Role * list string) : list Obj :=
  take 3 (stable_sort by_score
            (map (skillEntry S) (missing_of us (snd y)))).

End Controller.

(** ** Vocabulary for the properties *)

(** [x <= y] on numbers; NaN is comparable with nothing. *)
Definition Number_le (x y : Number) : Prop :=
  match x, y with
  | NaN, _ | _, NaN => False
  | NegInf, _ | _, PosInf => True
  | Fin a, Fin b => (a <= b)%Q
  | _, _ => False
  end.

(** The two numbers are the same value. *)
Definition Number_eqb (x y : Number) : bool :=
  match x, y with
  | NegInf, NegInf | PosInf, PosInf => true
  | Fin a, Fin b => Qeq_bool a b
  | _, _ => false
  end.

(** The value the last definition of [k] in [o] gives (an object read from
    JSON defines each of its keys once, and then this is [obj_get]). *)
Definition obj_last (k : string) (o : Obj) : option JVal := obj_get k (rev o).

(** A field of the response body. *)
Definition body_field (k : string) (r : Response) : option JVal :=
  match body r with
  | JObj o => obj_get k o
  | _ => None
  end.

(** The number of a role's required skills that are among the user's. *)
Definition matchCount_of (userSkills : list string) (x : Role * list string) : nat :=
  length (List.filter (includes userSkills) (snd x)).

(** The score the entry built for [skill] carries, as the ranking reads it:
    [ToNumber] of its [score] property. *)
Definition score_carried (calculateScore : ScoringFunction) (coerce : JVal -> Number)
    (S : list Obj) (skill : string) : Number :=
  ToNumber coerce (obj_get "score" (skillEntry calculateScore S skill)).

(** The integer a number is, if it is one written [z / 1]. *)
Definition Number_Z (x : Number) : option Z :=
  match x with
  | Fin (Qmake z 1) => Some z
  | _ => None
  end.

(** Role [x], at index [i] of the Roles table, has the largest match count,
    and no role before it has as large a one. *)
Definition first_maximal (userSkills : list string) (R : list (Role * list string))
    (i : nat) (x : Role * list string) : Prop :=
  R !! i = Some x /\
  (forall z, In z R -> (matchCount_of userSkills z <= matchCount_of userSkills x)%nat) /\
  (forall j z, (j < i)%nat -> R !! j = Some z ->
               (matchCount_of userSkills z < matchCount_of userSkills x)%nat).

(** The value the Skills-table entry found for [skill] gives to [field], if
    there is such an entry and it has the field. *)
Definition overrides (S : list Obj) (skill field : string) : option JVal :=
  match List.find (name_is skill) S with
  | Some info => obj_last field info
  | None => None
  end.

(** The names of the roles, in table order. *)
Definition role_names (R : list (Role * list string)) : list string :=
  map (fun x => role (fst x)) R.

(** ** Sample data *)

(** A store holding the tables [R] and [S] at [roles] and [skillsData]. *)
Definition store_of (roles skillsData : loc) (R : list (Role * list string))
    (S : list Obj) : Store :=
  <[roles := ARoles (map fst R)]>
    (<[skillsData := AObjects S]>
       (foldr (fun x s => <[requiredSkills (fst x) := AStrings (snd x)]> s) ∅ R)).

(** A scoring function: the [demand] of the skill, 0 when there is none. *)
Definition by_demand : ScoringFunction :=
  fun skillInfo =>
    match skillInfo with
    | Some o => match obj_get "demand" o with Some (JNum n) => n | _ => Fin 0 end
    | None => Fin 0
    end.

(** A run time that reads no string, array or object as a number. *)
Definition no_coercion : JVal -> Number := fun _ => NaN.

(** The example scenario of the specification. *)
Definition example_roles : list (Role * list string) :=
  [({| role := "Backend Developer"; requiredSkills := 3%positive |},
    ["Node"; "SQL"; "Docker"]);
   ({| role := "Frontend Developer"; requiredSkills := 4%positive |},
    ["React"; "CSS"])].

Definition example_skills : list Obj :=
  [[("name", JStr "SQL"); ("demand", JNum (Fin 9))];
   [("name", JStr "Docker"); ("demand", JNum (Fin 7))]].

Definition example_store : Store :=
  store_of 1%positive 2%positive example_roles example_skills.

(** A role with forty required skills, named by single characters, and a
    user who has the first twenty-three of them. *)
Definition skill_no (i : nat) : string :=
  String (Ascii.ascii_of_nat (48 + i)) EmptyString.

Definition forty_roles : list (Role * list string) :=
  [({| role := "Generalist"; requiredSkills := 3%positive |}, map skill_no (seq 0 40))].

Definition forty_store : Store := store_of 1%positive 2%positive forty_roles [].

(** Skills tables whose entries have fields named [skill] or [score]. *)
Definition shadow_roles : list (Role * list string) :=
  [({| role := "Analyst"; requiredSkills := 3%positive |}, ["R"; "SQL"])].

Definition renamed_skills : list Obj :=
  [[("name", JStr "SQL"); ("demand", JNum (Fin 5)); ("skill", JStr "Excel")]].

Definition renamed_store : Store :=
  store_of 1%positive 2%positive shadow_roles renamed_skills.

Definition rescored_skills : list Obj :=
  [[("name", JStr "R"); ("demand", JNum (Fin 10)); ("score", JNum (Fin 1))];
   [("name", JStr "SQL"); ("demand", JNum (Fin 5)); ("score", JNum (Fin 2))]].

Definition rescored_store : Store :=
  store_of 1%positive 2%positive shadow_roles rescored_skills.

Definition shadow_skills : list Obj :=
  [[("name", JStr "R"); ("demand", JNum (Fin 10)); ("score", JNum (Fin 1))];
   [("name", JStr "SQL"); ("demand", JNum (Fin 5)); ("score", JNum (Fin 2));
    ("skill", JStr "Excel")]].

Definition shadow_store : Store :=
  store_of 1%positive 2%positive shadow_roles shadow_skills.

(** For every role size [1 .. T] and every match count, does the double
    computation give the exactly rounded percentage? *)
Definition exact_upto (T : nat) : bool :=
  forallb (fun t =>
    forallb (fun m =>
      match Number_Z (matchPercentage m t) with
      | Some z => z =? exact_percentage m t
      | None => false
      end) (seq 0 (S t))) (seq 1 T).

(** Does the model of double arithmetic agree with the machine's on every
    role size [1 .. T] and every match count? *)
Definition machine_agrees_upto (T : nat) : bool :=
  forallb (fun t =>
    forallb (fun m =>
      match Number_Z (matchPercentage m t),
            machine_round (machine_percentage (Z.of_nat m) (Z.of_nat t)) with
      | Some z, Some z' => z =? z'
      | _, _ => false
      end) (seq 0 (S t))) (seq 1 T).

(** ** More sample data *)

(** A store with an empty Roles table. *)
Definition roleless_store : Store := store_of 1%positive 2%positive [] example_skills.

(** A Roles table whose first role requires nothing. *)
Definition idle_roles : list (Role * list string) :=
  [({| role := "Intern"; requiredSkills := 3%positive |}, []);
   ({| role := "Frontend Developer"; requiredSkills := 4%positive |}, ["React"; "CSS"])].

Definition idle_store : Store := store_of 1%positive 2%positive idle_roles example_skills.

(** ** The handler on any [skills] field

    The body of a request is whatever JSON the client sent: the [skills]
    field, when there is one, can be any value.  The steps of the handler
    are the same; what changes is what [||], [.length] and [.includes]
    make of the value. *)

(** ToBoolean. *)
Definition truthy (v : JVal) : bool :=
  match v with
  | JNull => false
  | JBool b => b
  | JNum NaN => false
  | JNum (Fin q) => negb (Qeq_bool q 0)
  | JNum _ => true
  | JStr s => negb (String.eqb s "")
  | JArr _ | JObj _ => true
  end.

(** [req.body.skills || []]; [None] is a body without the field. *)
Definition skills_or_empty (field : option JVal) : JVal :=
  match field with
  | Some v => if truthy v then v else JArr []
  | None => JArr []
  end.

(** [!userSkills.length]: an array has its length, a string its length, an
    object its [length] property if it has one; a number or a boolean has
    none, and [!undefined] is [true]. *)
Definition no_length (userSkills : JVal) : bool :=
  match userSkills with
  | JArr items => Nat.eqb (length items) 0
  | JStr s => String.eqb s ""
  | JObj o => match obj_get "length" o with
              | Some w => negb (truthy w)
              | None => true
              end
  | _ => true
  end.

(** [s.includes(p)] on strings: [p] occurs in [s]. *)
Fixpoint is_substring (p s : string) : bool :=
  String.prefix p s ||
  match s with
  | EmptyString => false
  | String _ s' => is_substring p s'
  end.

(** [userSkills.includes(skill)] for a string [skill]: membership in an
    array (only a string element can be the same value as a string),
    occurrence in a string; on anything else [includes] is not a function
    and the call throws. *)
Definition includes_of (userSkills : JVal) (skill : string) : M bool :=
  match userSkills with
  | JArr items =>
      ret (existsb (fun e => match e with
                             | JStr t => String.eqb skill t
                             | _ => false
                             end) items)
  | JStr s => ret (is_substring skill s)
  | _ => fun s => (s, Throw)
  end.

Section AnySkills.

Variable roles : loc.
Variable skillsData : loc.
Variable calculateScore : ScoringFunction.
Variable coerce : JVal -> Number.

(** [const matchedRole = roles.map(...).sort(...)[0]], the membership test
    being [has]. *)
Definition matchedRole_by (has : string -> M bool) : M (option RoleMatch) :=
  let* scored := Array_map roles (fun role0 : Role =>
    let* matchedSkills := Array_filter (requiredSkills role0)
                            (fun skill : string => has skill) in
    let* n := Array_length matchedSkills in
    let* t := Array_length (requiredSkills role0) in
    ret {| match_role := role role0; matchCount := n; totalRequired := t |}) in
  let* sorted := Array_sort scored by_matchCount in
  Array_get sorted 0.

(** [const missingSkills = targetRole.requiredSkills.filter(...).map(...)],
    the membership test being [has]. *)
Definition missingSkills_by (has : string -> M bool) (targetRole : option Role) : M loc :=
  let* target := deref targetRole in
  let* missing := Array_filter (requiredSkills target)
                    (fun skill : string => let* b := has skill in ret (negb b)) in
  Array_map missing (fun skill : string =>
    let* skillInfo := Array_find skillsData (fun s : Obj => ret (name_is skill s)) in
    let score := calculateScore skillInfo in
    ret (recommendation skill score skillInfo)).

(** The handler, given the [skills] field of the body. *)
Definition recommendCareer_on (field : option JVal) : M Response :=
  let userSkills := skills_or_empty field in
  if no_length userSkills then
    ret (res_status_json 400 (JObj [("message", JStr "Skills are required")]))
  else
    let* matchedRole := matchedRole_by (includes_of userSkills) in
    let* targetRole := targetRole roles matchedRole in
    let* missingSkills := missingSkills_by (includes_of userSkills) targetRole in
    let* sortedRecommendations := sortedRecommendations coerce missingSkills in
    let* m := deref matchedRole in
    let* top := Array_slice (A := Obj) sortedRecommendations 0 3 in
    let* recommendedSkills := Array_read (A := Obj) top in
    ret (res_json (result_body m recommendedSkills)).

End AnySkills.

(** The string elements of an array. *)
Fixpoint strings_of (items : list JVal) : list string :=
  match items with
  | [] => []
  | JStr t :: rest => t :: strings_of rest
  | _ :: rest => strings_of rest
  end.

(** The strings that begin [s], and the strings that occur in [s]. *)
Fixpoint prefixes (s : string) : list string :=
  EmptyString ::
  match s with
  | EmptyString => []
  | String a s' => map (String a) (prefixes s')
  end.

Fixpoint substrings (s : string) : list string :=
  prefixes s ++
  match s with
  | EmptyString => []
  | String _ s' => substrings s'
  end.

(** Two computations that do the same on every store. *)
Definition meq {A} (m1 m2 : M A) : Prop := forall s, m1 s = m2 s.

(** * Reasoning about computations on the store *)

Section Logic.

Context {A B : Type}.

Lemma hoare_ret (P : Store -> Prop) (a : A) (Q : A -> Store -> Prop) :
  (forall s, P s -> Q a s) -> hoare P (ret a) Q.
Proof. intros H s Hs. exists s, a. split; [reflexivity | auto]. Qed.

Lemma hoare_bind (P : Store -> Prop) (m : M A) (Q : A -> Store -> Prop)
    (k : A -> M B) (R : B -> Store -> Prop) :
  hoare P m Q -> (forall a, hoare (Q a) (k a) R) -> hoare P (bind m k) R.
Proof.
  intros Hm Hk s Hs. destruct (Hm s Hs) as (s1 & a & E & Ha).
  destruct (Hk a s1 Ha) as (s2 & b & E2 & Hb).
  exists s2, b. split; [| exact Hb]. unfold bind. rewrite E. exact E2.
Qed.

Lemma keeps_ret (s0 : Store) (a : A) (Q : A -> Prop) :
  Q a -> keeps s0 (ret a) Q.
Proof. intros H s Hs. simpl. split; [exact Hs |]. intros ? [= <-]. exact H. Qed.

Lemma keeps_bind (s0 : Store) (m : M A) (Q : A -> Prop) (k : A -> M B)
    (R : B -> Prop) :
  keeps s0 m Q -> (forall a, Q a -> keeps s0 (k a) R) -> keeps s0 (bind m k) R.
Proof.
  intros Hm Hk s Hs. destruct (Hm s Hs) as [H1 H2]. unfold bind.
  destruct (m s) as [s1 [a| |]]; simpl in *.
  - apply (Hk a (H2 a eq_refl) s1 H1).
  - split; [exact H1 | discriminate].
  - split; [exact H1 | discriminate].
Qed.

Lemma keeps_deref (s0 : Store) (o : option A) :
  keeps s0 (deref o) (fun _ => True).
Proof. intros s Hs. destruct o; simpl; auto. Qed.

End Logic.

(** A fresh location is outside the store, hence outside every store the
    current one extends. *)
Lemma fresh_not_in (s0 s : Store) : s0 ⊆ s -> fresh (dom s) ∉ dom s0.
Proof.
  intros Hs Hin. apply (is_fresh (dom s)).
  apply elem_of_dom. apply elem_of_dom in Hin as [x Hx].
  exists x. eapply lookup_weaken; eauto.
Qed.

Lemma insert_outside (s0 s : Store) (a : loc) (arr : Array) :
  s0 ⊆ s -> a ∉ dom s0 -> s0 ⊆ <[a := arr]> s.
Proof.
  intros Hs Ha. apply map_subseteq_spec. intros i x Hi.
  rewrite lookup_insert_ne.
  - eapply lookup_weaken; eauto.
  - intros ->. apply Ha. apply elem_of_dom. eauto.
Qed.

Section ArrayRules.

Context {A : Type} `{EA : Element A}.
Variable s0 : Store.

(** *** Every array method keeps the arrays of [s0] *)

Lemma keeps_Array_read (a : loc) :
  keeps s0 (Array_read (A := A) a) (fun _ => True).
Proof.
  intros s Hs. unfold Array_read.
  destruct (s !! a) as [arr|]; [destruct (of_array arr) |]; simpl; auto.
Qed.

Lemma keeps_Array_length (a : loc) : keeps s0 (Array_length a) (fun _ => True).
Proof. intros s Hs. unfold Array_length. destruct (s !! a); simpl; auto. Qed.

Lemma keeps_Array_new (l : list A) :
  keeps s0 (Array_new l) (fun a => a ∉ dom s0).
Proof.
  intros s Hs. unfold Array_new. simpl. split.
  - apply insert_outside; [exact Hs | exact (fresh_not_in s0 s Hs)].
  - intros a [= <-]. exact (fresh_not_in s0 s Hs).
Qed.

Lemma keeps_Array_write (a : loc) (l : list A) :
  a ∉ dom s0 -> keeps s0 (Array_write a l) (fun _ => True).
Proof.
  intros Ha s Hs. unfold Array_write. simpl. split; [| auto].
  apply insert_outside; assumption.
Qed.

Lemma keeps_filterM (p : A -> M bool) (l : list A) :
  (forall x, keeps s0 (p x) (fun _ => True)) ->
  keeps s0 (filterM p l) (fun _ => True).
Proof.
  intros Hp. induction l as [| x l IH]; simpl.
  - apply keeps_ret. exact I.
  - eapply keeps_bind; [apply Hp |]. intros b _.
    eapply keeps_bind; [apply IH |]. intros ys _. apply keeps_ret. exact I.
Qed.

Lemma keeps_findM (p : A -> M bool) (l : list A) :
  (forall x, keeps s0 (p x) (fun _ => True)) ->
  keeps s0 (findM p l) (fun _ => True).
Proof.
  intros Hp. induction l as [| x l IH]; simpl.
  - apply keeps_ret. exact I.
  - eapply keeps_bind; [apply Hp |]. intros [] _; [apply keeps_ret; exact I | apply IH].
Qed.

Lemma keeps_Array_get (a : loc) (i : nat) :
  keeps s0 (Array_get (A := A) a i) (fun _ => True).
Proof.
  unfold Array_get. eapply keeps_bind; [apply keeps_Array_read |].
  intros xs _. apply keeps_ret. exact I.
Qed.

Lemma keeps_Array_filter (a : loc) (p : A -> M bool) :
  (forall x, keeps s0 (p x) (fun _ => True)) ->
  keeps s0 (Array_filter a p) (fun l => l ∉ dom s0).
Proof.
  intros Hp. unfold Array_filter. eapply keeps_bind; [apply keeps_Array_read |].
  intros xs _. eapply keeps_bind; [apply keeps_filterM, Hp |].
  intros ys _. apply keeps_Array_new.
Qed.

Lemma keeps_Array_find (a : loc) (p : A -> M bool) :
  (forall x, keeps s0 (p x) (fun _ => True)) ->
  keeps s0 (Array_find a p) (fun _ => True).
Proof.
  intros Hp. unfold Array_find. eapply keeps_bind; [apply keeps_Array_read |].
  intros xs _. apply keeps_findM, Hp.
Qed.

Lemma keeps_Array_slice (a : loc) (i j : nat) :
  keeps s0 (Array_slice (A := A) a i j) (fun l => l ∉ dom s0).
Proof.
  unfold Array_slice. eapply keeps_bind; [apply keeps_Array_read |].
  intros xs _. apply keeps_Array_new.
Qed.

(** Sorting mutates its array: the arrays of [s0] are kept when that
    array is not one of them. *)
Lemma keeps_Array_sort (a : loc) (cmp : A -> A -> Number) :
  a ∉ dom s0 -> keeps s0 (Array_sort a cmp) (fun l => l = a).
Proof.
  intros Ha. unfold Array_sort. eapply keeps_bind; [apply keeps_Array_read |].
  intros xs _. eapply keeps_bind; [apply keeps_Array_write, Ha |].
  intros _ _. apply keeps_ret. reflexivity.
Qed.

(** *** What the array methods return *)

Lemma hoare_Array_read (P : Store -> Prop) (a : loc) (xs : list A) :
  (forall s, P s -> s !! a = Some (to_array xs)) ->
  hoare P (Array_read a) (fun l s => l = xs /\ P s).
Proof.
  intros H s Hs. exists s, xs. unfold Array_read.
  rewrite (H s Hs), of_to_array. auto.
Qed.

Lemma hoare_Array_new (l : list A) :
  hoare (fun s => s0 ⊆ s) (Array_new l)
        (fun a s => s0 ⊆ s /\ s !! a = Some (to_array l) /\ a ∉ dom s0).
Proof.
  intros s Hs. eexists _, _. split; [reflexivity |].
  pose proof (fresh_not_in s0 s Hs) as Hf.
  split; [apply insert_outside; assumption |].
  split; [apply lookup_insert_eq | exact Hf].
Qed.

Lemma hoare_filterM (P : Store -> Prop) (p : A -> M bool) (g : A -> bool)
    (l : list A) :
  (forall x, In x l -> hoare P (p x) (fun b s => b = g x /\ P s)) ->
  hoare P (filterM p l) (fun ys s => ys = List.filter g l /\ P s).
Proof.
  induction l as [| x l IH]; intros Hp; simpl.
  - apply hoare_ret. auto.
  - eapply hoare_bind; [apply Hp; left; reflexivity |].
    intros b s [-> Hs].
    destruct (IH (fun y Hy => Hp y (or_intror Hy)) s Hs) as (s1 & ys & E & -> & Hs1).
    exists s1. eexists. unfold bind. rewrite E. split; [reflexivity |].
    split; [| exact Hs1]. destruct (g x); reflexivity.
Qed.

Lemma hoare_findM (P : Store -> Prop) (p : A -> M bool) (g : A -> bool)
    (l : list A) :
  (forall x, In x l -> hoare P (p x) (fun b s => b = g x /\ P s)) ->
  hoare P (findM p l) (fun o s => o = List.find g l /\ P s).
Proof.
  induction l as [| x l IH]; intros Hp; simpl.
  - apply hoare_ret. auto.
  - eapply hoare_bind; [apply Hp; left; reflexivity |].
    intros b s [-> Hs]. destruct (g x).
    + exists s. eexists. split; [reflexivity | auto].
    + apply (IH (fun y Hy => Hp y (or_intror Hy)) s Hs).
Qed.

Lemma hoare_Array_filter (a : loc) (xs : list A) (p : A -> M bool) (g : A -> bool) :
  (forall x, In x xs ->
     hoare (fun s => s0 ⊆ s) (p x) (fun b s => b = g x /\ s0 ⊆ s)) ->
  hoare (fun s => s0 ⊆ s /\ s !! a = Some (to_array xs)) (Array_filter a p)
        (fun l s => s0 ⊆ s /\ s !! l = Some (to_array (List.filter g xs)) /\ l ∉ dom s0).
Proof.
  intros Hp. unfold Array_filter.
  eapply hoare_bind; [apply (hoare_Array_read _ a xs); tauto |].
  intros l.
  apply hoare_bind with (Q := fun ys s => ys = List.filter g xs /\ s0 ⊆ s).
  - intros s [-> [Hs _]]. apply (hoare_filterM _ p g xs Hp s Hs).
  - intros ys s [-> Hs]. apply (hoare_Array_new _ s Hs).
Qed.

Lemma hoare_Array_find (a : loc) (xs : list A) (p : A -> M bool) (g : A -> bool) :
  (forall x, In x xs ->
     hoare (fun s => s0 ⊆ s) (p x) (fun b s => b = g x /\ s0 ⊆ s)) ->
  hoare (fun s => s0 ⊆ s /\ s !! a = Some (to_array xs)) (Array_find a p)
        (fun o s => o = List.find g xs /\ s0 ⊆ s).
Proof.
  intros Hp. unfold Array_find.
  eapply hoare_bind; [apply (hoare_Array_read _ a xs); tauto |].
  intros l s [-> [Hs _]]. apply (hoare_findM _ p g xs Hp s Hs).
Qed.

Lemma hoare_Array_slice (a : loc) (xs : list A) (i j : nat) :
  hoare (fun s => s0 ⊆ s /\ s !! a = Some (to_array xs)) (Array_slice (A := A) a i j)
        (fun l s => s0 ⊆ s /\ s !! l = Some (to_array (take (j - i) (drop i xs)))
                    /\ l ∉ dom s0).
Proof.
  unfold Array_slice.
  eapply hoare_bind; [apply (hoare_Array_read _ a xs); tauto |].
  intros l s [-> [Hs _]]. apply (hoare_Array_new _ s Hs).
Qed.

Lemma hoare_Array_sort (a : loc) (xs : list A) (cmp : A -> A -> Number) :
  a ∉ dom s0 ->
  hoare (fun s => s0 ⊆ s /\ s !! a = Some (to_array xs)) (Array_sort a cmp)
        (fun l s => l = a /\ s0 ⊆ s /\ s !! a = Some (to_array (stable_sort cmp xs))).
Proof.
  intros Ha s [Hs Hxs]. unfold Array_sort, bind, Array_read.
  rewrite Hxs, of_to_array. simpl. eexists _, _. split; [reflexivity |].
  split; [reflexivity |]. split; [apply insert_outside; assumption |].
  apply lookup_insert_eq.
Qed.

End ArrayRules.

Section MapRules.

Context {A B : Type} `{EA : Element A} `{EB : Element B}.
Variable s0 : Store.

Lemma keeps_mapM (f : A -> M B) (l : list A) :
  (forall x, keeps s0 (f x) (fun _ => True)) ->
  keeps s0 (mapM f l) (fun _ => True).
Proof.
  intros Hf. induction l as [| x l IH]; simpl.
  - apply keeps_ret. exact I.
  - eapply keeps_bind; [apply Hf |]. intros y _.
    eapply keeps_bind; [apply IH |]. intros ys _. apply keeps_ret. exact I.
Qed.

Lemma keeps_Array_map (a : loc) (f : A -> M B) :
  (forall x, keeps s0 (f x) (fun _ => True)) ->
  keeps s0 (Array_map a f) (fun l => l ∉ dom s0).
Proof.
  intros Hf. unfold Array_map. eapply keeps_bind; [apply keeps_Array_read |].
  intros xs _. eapply keeps_bind; [apply keeps_mapM, Hf |].
  intros ys _. apply keeps_Array_new.
Qed.

Lemma hoare_mapM (P : Store -> Prop) (f : A -> M B) (g : A -> B) (l : list A) :
  (forall x, In x l -> hoare P (f x) (fun y s => y = g x /\ P s)) ->
  hoare P (mapM f l) (fun ys s => ys = map g l /\ P s).
Proof.
  induction l as [| x l IH]; intros Hf; simpl.
  - apply hoare_ret. auto.
  - eapply hoare_bind; [apply Hf; left; reflexivity |].
    intros y s [-> Hs].
    destruct (IH (fun z Hz => Hf z (or_intror Hz)) s Hs) as (s1 & ys & E & -> & Hs1).
    exists s1. eexists. unfold bind. rewrite E. split; [reflexivity | auto].
Qed.

Lemma hoare_Array_map (a : loc) (xs : list A) (f : A -> M B) (g : A -> B) :
  (forall x, In x xs ->
     hoare (fun s => s0 ⊆ s) (f x) (fun y s => y = g x /\ s0 ⊆ s)) ->
  hoare (fun s => s0 ⊆ s /\ s !! a = Some (to_array xs)) (Array_map a f)
        (fun l s => s0 ⊆ s /\ s !! l = Some (to_array (map g xs)) /\ l ∉ dom s0).
Proof.
  intros Hf. unfold Array_map.
  eapply hoare_bind; [apply (hoare_Array_read _ a xs); tauto |].
  intros l.
  apply hoare_bind with (Q := fun ys s => ys = map g xs /\ s0 ⊆ s).
  - intros s [-> [Hs _]]. apply (hoare_mapM _ f g xs Hf s Hs).
  - intros ys s [-> Hs]. apply (hoare_Array_new _ _ s Hs).
Qed.

End MapRules.

(** * The order [sort] produces *)

Lemma sort_insert_perm {A} (cmp : A -> A -> Number) (x : A) (l : list A) :
  Permutation (sort_insert cmp x l) (x :: l).
Proof.
  induction l as [| y l IH]; simpl; [reflexivity |].
  destruct (sort_sign (cmp x y)); try reflexivity.
  rewrite IH. apply perm_swap.
Qed.

Lemma stable_sort_perm {A} (cmp : A -> A -> Number) (l : list A) :
  Permutation (stable_sort cmp l) l.
Proof.
  induction l as [| x l IH]; simpl; [reflexivity |].
  unfold stable_sort in *. simpl. rewrite sort_insert_perm, IH. reflexivity.
Qed.

Lemma stable_sort_length {A} (cmp : A -> A -> Number) (l : list A) :
  length (stable_sort cmp l) = length l.
Proof. apply Permutation_length, stable_sort_perm. Qed.

(** Sorting the images under [f] is sorting by the comparison pulled back
    along [f]. *)
Lemma sort_insert_map {A B} (f : A -> B) (cmp : B -> B -> Number) (x : A) (l : list A) :
  sort_insert cmp (f x) (map f l) = map f (sort_insert (fun a b => cmp (f a) (f b)) x l).
Proof.
  induction l as [| y l IH]; simpl; [reflexivity |].
  destruct (sort_sign (cmp (f x) (f y))); simpl; try reflexivity.
  rewrite IH. reflexivity.
Qed.

Lemma stable_sort_map {A B} (f : A -> B) (cmp : B -> B -> Number) (l : list A) :
  stable_sort cmp (map f l) = map f (stable_sort (fun a b => cmp (f a) (f b)) l).
Proof.
  induction l as [| x l IH]; simpl; [reflexivity |].
  unfold stable_sort in *. simpl. rewrite IH. apply sort_insert_map.
Qed.

(** The first element a filter keeps sits at some index, with nothing
    before it that the filter would keep. *)
Lemma filter_head_first {A} (p : A -> bool) (l : list A) (m : A) (rest : list A) :
  List.filter p l = m :: rest ->
  exists i, l !! i = Some m /\ p m = true /\
            forall j y, (j < i)%nat -> l !! j = Some y -> p y = false.
Proof.
  induction l as [| x l IH]; simpl; [discriminate |].
  destruct (p x) eqn:E.
  - intros [= -> _]. exists 0%nat. split; [reflexivity |]. split; [exact E |].
    intros j y Hj. lia.
  - intros H. destruct (IH H) as (i & Hi & Hm & Hb).
    exists (S i). split; [exact Hi |]. split; [exact Hm |].
    intros [| j] y Hj Hy; simpl in Hy.
    + congruence.
    + apply (Hb j y); [lia | exact Hy].
Qed.

Section SortOrder.

Context {A : Type}.
Variable cmp : A -> A -> Number.

(** [ok] singles out the elements on which [cmp] is consistent with a
    total preorder [ge] ("ranks at least as high as"): [x] is sent behind
    [y] exactly when it does not rank as high. *)
Variable ok : A -> Prop.
Variable ge : A -> A -> Prop.
Hypothesis ge_total : forall x y, ok x -> ok y -> ge x y \/ ge y x.
Hypothesis ge_trans : forall x y z, ok x -> ok y -> ok z -> ge x y -> ge y z -> ge x z.
Hypothesis cmp_behind :
  forall x y, ok x -> ok y -> sort_sign (cmp x y) = Gt -> ~ ge x y.
Hypothesis cmp_front :
  forall x y, ok x -> ok y -> sort_sign (cmp x y) <> Gt -> ge x y.

Lemma sort_insert_sorted (x : A) (l : list A) :
  ok x -> Forall ok l -> StronglySorted ge l ->
  StronglySorted ge (sort_insert cmp x l).
Proof.
  intros Hx Hl Hs. induction Hs as [| y l Hs IH Hy]; simpl.
  - repeat constructor.
  - apply Forall_cons_iff in Hl as [Hoy Hl].
    rewrite List.Forall_forall in Hy, Hl.
    destruct (sort_sign (cmp x y)) eqn:E.
    1, 2: assert (Hxy : ge x y) by (apply cmp_front; [assumption .. | congruence]);
          constructor; [constructor; [assumption | apply List.Forall_forall; assumption] |];
          constructor; [exact Hxy |];
          apply List.Forall_forall; intros z Hz;
          apply (ge_trans x y z); auto.
    constructor; [apply IH; apply List.Forall_forall; assumption |].
    assert (Hyx : ge y x).
    { destruct (ge_total x y Hx Hoy) as [Hxy |]; [| assumption].
      exfalso. exact (cmp_behind x y Hx Hoy E Hxy). }
    rewrite (sort_insert_perm cmp x l). constructor; [assumption |].
    apply List.Forall_forall. assumption.
Qed.

Lemma stable_sort_sorted (l : list A) :
  Forall ok l -> StronglySorted ge (stable_sort cmp l).
Proof.
  induction l as [| x l IH]; intros Hl; [constructor |].
  apply Forall_cons_iff in Hl as [Hx Hl].
  unfold stable_sort in *. simpl. apply sort_insert_sorted; auto.
  rewrite (stable_sort_perm cmp l : Permutation (foldr _ _ _) _). exact Hl.
Qed.

(** Stability: the elements of one rank come out in the order they went
    in.  [p] picks out a rank: no element it accepts is sent behind
    another one it accepts. *)
Lemma sort_insert_stable (p : A -> bool) (x : A) (l : list A) :
  (forall a b, In a (x :: l) -> In b (x :: l) ->
               p a = true -> p b = true -> sort_sign (cmp a b) <> Gt) ->
  List.filter p (sort_insert cmp x l) = List.filter p (x :: l).
Proof.
  induction l as [| y l IH]; intros Hp; simpl; [reflexivity |].
  destruct (sort_sign (cmp x y)) eqn:E; simpl; try reflexivity.
  rewrite IH.
  - simpl. destruct (p x) eqn:Ex, (p y) eqn:Ey; try reflexivity.
    exfalso. apply (Hp x y); simpl; auto.
  - intros a b Ha Hb. apply Hp; simpl in *; tauto.
Qed.

Lemma stable_sort_stable (p : A -> bool) (l : list A) :
  (forall a b, In a l -> In b l ->
               p a = true -> p b = true -> sort_sign (cmp a b) <> Gt) ->
  List.filter p (stable_sort cmp l) = List.filter p l.
Proof.
  induction l as [| x l IH]; intros Hp; simpl; [reflexivity |].
  unfold stable_sort in *. simpl. rewrite sort_insert_stable.
  - simpl. rewrite IH; [reflexivity |].
    intros a b Ha Hb. apply Hp; simpl; auto.
  - intros a b Ha Hb. apply Hp.
    + destruct Ha as [-> | Ha]; [left; reflexivity | right].
      apply (Permutation_in _ (stable_sort_perm cmp l)). exact Ha.
    + destruct Hb as [-> | Hb]; [left; reflexivity | right].
      apply (Permutation_in _ (stable_sort_perm cmp l)). exact Hb.
Qed.

Lemma same_rank_ge (m y : A) :
  ok m -> ok y -> same_rank cmp m y = true -> ge y m /\ ge m y.
Proof.
  intros Hm Hy. unfold same_rank. intros H.
  split; apply cmp_front; try assumption; intros E; rewrite E in H;
    destruct (sort_sign _); discriminate.
Qed.

(** The element that comes out first ranks at least as high as every
    other, and nothing before it in the input ranks as high. *)
Lemma stable_sort_head (l : list A) (m : A) :
  Forall ok l -> stable_sort cmp l !! 0%nat = Some m ->
  (forall y, In y l -> ge m y) /\
  exists i, l !! i = Some m /\
            forall j y, (j < i)%nat -> l !! j = Some y -> ~ ge y m.
Proof.
  intros Hok Hhd.
  destruct (stable_sort cmp l) as [| m' rest] eqn:Es; [discriminate |].
  injection Hhd as ->.
  assert (Hperm : Permutation (m :: rest) l)
    by (rewrite <- Es; apply stable_sort_perm).
  pose proof (stable_sort_sorted l Hok) as Hsorted. rewrite Es in Hsorted.
  apply StronglySorted_inv in Hsorted as [_ Hall].
  assert (Hokl : forall y, In y l -> ok y)
    by (rewrite List.Forall_forall in Hok; exact Hok).
  assert (Hm : In m l) by (apply (Permutation_in _ Hperm); left; reflexivity).
  assert (Hrefl : ge m m) by (destruct (ge_total m m); auto).
  assert (Hmax : forall y, In y l -> ge m y).
  { intros y Hy. apply (Permutation_in _ (Permutation_sym Hperm)) in Hy.
    destruct Hy as [<- | Hy]; [exact Hrefl |].
    rewrite List.Forall_forall in Hall. exact (Hall y Hy). }
  split; [exact Hmax |].
  assert (Hmm : same_rank cmp m m = true).
  { unfold same_rank. destruct (sort_sign (cmp m m)) eqn:E; try reflexivity.
    exfalso. exact (cmp_behind m m (Hokl m Hm) (Hokl m Hm) E Hrefl). }
  assert (Hst : List.filter (same_rank cmp m) (stable_sort cmp l)
                = List.filter (same_rank cmp m) l).
  { apply stable_sort_stable. intros a b Ha Hb Pa Pb E.
    destruct (same_rank_ge m a (Hokl m Hm) (Hokl a Ha) Pa) as [Ham _].
    destruct (same_rank_ge m b (Hokl m Hm) (Hokl b Hb) Pb) as [_ Hmb].
    apply (cmp_behind a b (Hokl a Ha) (Hokl b Hb) E).
    apply (ge_trans a m b); auto. }
  rewrite Es in Hst. simpl in Hst. rewrite Hmm in Hst. symmetry in Hst.
  destruct (filter_head_first _ _ _ _ Hst) as (i & Hi & _ & Hbefore).
  exists i. split; [exact Hi |].
  intros j y Hj Hy Hge.
  pose proof (Hbefore j y Hj Hy) as Hp.
  assert (Hyl : In y l) by (apply list_elem_of_In, list_elem_of_lookup; eauto).
  unfold same_rank in Hp.
  destruct (sort_sign (cmp y m)) eqn:E1.
  - destruct (sort_sign (cmp m y)) eqn:E2; try discriminate.
    exact (cmp_behind m y (Hokl m Hm) (Hokl y Hyl) E2 (Hmax y Hyl)).
  - destruct (sort_sign (cmp m y)) eqn:E2; try discriminate.
    exact (cmp_behind m y (Hokl m Hm) (Hokl y Hyl) E2 (Hmax y Hyl)).
  - exact (cmp_behind y m (Hokl y Hyl) (Hokl m Hm) E1 Hge).
Qed.

End SortOrder.


(** *** Running single steps *)

Lemma bind_ok {A B} (m : M A) (k : A -> M B) (s s1 : Store) (a : A) :
  m s = (s1, Ok a) -> bind m k s = k a s1.
Proof. intros E. unfold bind. rewrite E. reflexivity. Qed.

(** Run the first step of a sequence, given what it evaluates to. *)
Ltac run_step E := rewrite (bind_ok _ _ _ _ _ E).

Lemma Array_read_run {A} `{Element A} (s : Store) (a : loc) (xs : list A) :
  s !! a = Some (to_array xs) -> Array_read a s = (s, Ok xs).
Proof. intros E. unfold Array_read. rewrite E, of_to_array. reflexivity. Qed.

Lemma Array_length_run {A} `{Element A} (s : Store) (a : loc) (xs : list A) :
  s !! a = Some (to_array xs) -> Array_length a s = (s, Ok (length xs)).
Proof. intros E. unfold Array_length. rewrite E, to_array_length. reflexivity. Qed.

Lemma Array_get_run {A} `{Element A} (s : Store) (a : loc) (xs : list A) (i : nat) :
  s !! a = Some (to_array xs) -> Array_get a i s = (s, Ok (xs !! i)).
Proof.
  intros E. unfold Array_get. run_step (Array_read_run s a xs E).
  reflexivity.
Qed.

(** * The handler on a store that holds the two tables *)

Section Verification.

Variable roles : loc.
Variable skillsData : loc.
Variable calculateScore : ScoringFunction.
Variable coerce : JVal -> Number.

Lemma tables_at_skills s R S x :
  tables_at roles skillsData s R S -> In x R -> s !! requiredSkills (fst x) = Some (AStrings (snd x)).
Proof.
  intros (_ & HR & _) Hx. rewrite List.Forall_forall in HR. exact (HR x Hx).
Qed.

Lemma skills_of_table s R S x :
  tables_at roles skillsData s R S -> In x R -> skills_of s (fst x) = snd x.
Proof.
  intros HT Hx. unfold skills_of. rewrite (tables_at_skills s R S x HT Hx). reflexivity.
Qed.

Lemma roleMatch_skills_of s R S us :
  tables_at roles skillsData s R S ->
  map (fun r => roleMatch us (r, skills_of s r)) (map fst R) = map (roleMatch us) R.
Proof.
  intros HT. rewrite List.map_map. apply List.map_ext_in. intros [r ss] Hx.
  pose proof (skills_of_table s R S (r, ss) HT Hx) as E. simpl in *.
  rewrite E. reflexivity.
Qed.

(** The callback of the first [map]. *)
Lemma role_callback_hoare s0 R S us r :
  tables_at roles skillsData s0 R S -> In r (map fst R) ->
  hoare (fun s => s0 ⊆ s)
    (let* matchedSkills := Array_filter (requiredSkills r)
                             (fun skill : string => ret (includes us skill)) in
     let* n := Array_length matchedSkills in
     let* t := Array_length (requiredSkills r) in
     ret {| match_role := role r; matchCount := n; totalRequired := t |})
    (fun y s => y = roleMatch us (r, skills_of s0 r) /\ s0 ⊆ s).
Proof.
  intros HT Hr. apply List.in_map_iff in Hr as ([r' ss] & <- & Hx). simpl.
  pose proof (tables_at_skills s0 R S _ HT Hx) as Hss. simpl in Hss.
  unfold skills_of. rewrite Hss.
  intros s Hs.
  destruct (hoare_Array_filter (A := string) s0 (requiredSkills r') ss
              (fun skill => ret (includes us skill)) (includes us)
              (fun x _ => hoare_ret _ _ _ (fun s H => conj eq_refl H)) s)
    as (s1 & l & E1 & Hs1 & Hl & _).
  { split; [exact Hs |]. eapply lookup_weaken; eauto. }
  run_step E1.
  run_step (Array_length_run (A := string) s1 l _ Hl).
  assert (Hss1 : s1 !! requiredSkills r' = Some (to_array ss))
    by (eapply lookup_weaken; eauto).
  run_step (Array_length_run s1 _ ss Hss1).
  exists s1. eexists. split; [reflexivity |]. split; [reflexivity | exact Hs1].
Qed.

(** The callback of the second [map]. *)
Lemma skill_callback_hoare s0 R S skill :
  tables_at roles skillsData s0 R S ->
  hoare (fun s => s0 ⊆ s)
    (let* skillInfo := Array_find skillsData (fun s : Obj => ret (name_is skill s)) in
     let score := calculateScore skillInfo in
     ret (recommendation skill score skillInfo))
    (fun y s => y = skillEntry calculateScore S skill /\ s0 ⊆ s).
Proof.
  intros (_ & _ & HS) s Hs.
  destruct (hoare_Array_find (A := Obj) s0 skillsData S
              (fun o => ret (name_is skill o)) (name_is skill)
              (fun x _ => hoare_ret _ _ _ (fun s H => conj eq_refl H)) s)
    as (s1 & o & E1 & -> & Hs1).
  { split; [exact Hs |]. eapply lookup_weaken; eauto. }
  run_step E1. cbv zeta.
  exists s1. eexists. split; [reflexivity |]. split; [reflexivity | exact Hs1].
Qed.

(** Role selection returns the head of the sorted match records. *)
Lemma matchedRole_run s0 R S us s :
  tables_at roles skillsData s0 R S -> s0 ⊆ s ->
  exists s', s0 ⊆ s' /\
    matchedRole roles us s
    = (s', Ok (stable_sort by_matchCount (map (roleMatch us) R) !! 0%nat)).
Proof.
  intros HT Hs. pose proof HT as (Hroles & HR & HS). unfold matchedRole.
  destruct (hoare_Array_map (A := Role) (B := RoleMatch) s0 roles (map fst R) _
              (fun r => roleMatch us (r, skills_of s0 r))
              (fun r Hr => role_callback_hoare s0 R S us r HT Hr) s)
    as (s1 & scored & E1 & Hs1 & Hscored & Hfresh1).
  { split; [exact Hs |]. eapply lookup_weaken; eauto. }
  run_step E1.
  rewrite (roleMatch_skills_of s0 R S us HT) in Hscored.
  destruct (hoare_Array_sort (A := RoleMatch) s0 scored _ by_matchCount Hfresh1 s1
              (conj Hs1 Hscored))
    as (s2 & ? & E2 & -> & Hs2 & Hsorted).
  run_step E2.
  rewrite (Array_get_run s2 scored _ 0 Hsorted).
  exists s2. split; [exact Hs2 | reflexivity].
Qed.

(** The lookup by name returns the first role carrying the name. *)
Lemma targetRole_run s0 R S m s :
  tables_at roles skillsData s0 R S -> s0 ⊆ s ->
  exists s', s0 ⊆ s' /\
    targetRole roles (Some m) s = (s', Ok (List.find (same_role m) (map fst R))).
Proof.
  intros (Hroles & _ & _) Hs. unfold targetRole.
  destruct (hoare_Array_find (A := Role) s0 roles (map fst R)
              (fun r => let* m0 := deref (Some m) in
                        ret (String.eqb (role r) (match_role m0)))
              (same_role m)
              (fun x _ => hoare_ret _ _ _ (fun s H => conj eq_refl H)) s)
    as (s3 & o & E3 & -> & Hs3).
  { split; [exact Hs |]. eapply lookup_weaken; eauto. }
  exists s3. split; [exact Hs3 | exact E3].
Qed.

(** With no match record (an empty Roles table) nothing is looked up. *)
Lemma targetRole_run_empty s0 S s :
  tables_at roles skillsData s0 [] S -> s0 ⊆ s -> targetRole roles None s = (s, Ok None).
Proof.
  intros (Hroles & _ & _) Hs. unfold targetRole, Array_find.
  assert (Hroles' : s !! roles = Some (to_array (A := Role) []))
    by (eapply lookup_weaken; eauto).
  run_step (Array_read_run (A := Role) s roles [] Hroles').
  reflexivity.
Qed.

(** The missing skills of the target role, each turned into an entry. *)
Lemma missingSkills_run s0 R S us x s :
  tables_at roles skillsData s0 R S -> In x R -> s0 ⊆ s ->
  exists s' a, s0 ⊆ s' /\ (a ∉ dom s0) /\
    s' !! a = Some (AObjects (map (skillEntry calculateScore S) (missing_of us (snd x)))) /\
    missingSkills skillsData calculateScore us (Some (fst x)) s = (s', Ok a).
Proof.
  intros HT Hx Hs. unfold missingSkills.
  change (bind (deref (Some (fst x))) ?k s) with (k (fst x) s). cbv beta.
  pose proof (tables_at_skills s0 R S x HT Hx) as Hss.
  destruct (hoare_Array_filter (A := string) s0 (requiredSkills (fst x)) (snd x)
              (fun skill => ret (negb (includes us skill)))
              (fun skill => negb (includes us skill))
              (fun y _ => hoare_ret _ _ _ (fun s H => conj eq_refl H)) s)
    as (s4 & missing & E4 & Hs4 & Hmissing & _).
  { split; [exact Hs |]. eapply lookup_weaken; eauto. }
  run_step E4.
  destruct (hoare_Array_map (A := string) (B := Obj) s0 missing _ _
              (skillEntry calculateScore S)
              (fun k _ => skill_callback_hoare s0 R S k HT) s4 (conj Hs4 Hmissing))
    as (s5 & a & E5 & Hs5 & Ha & Hfresh5).
  exists s5, a. split; [exact Hs5 |]. split; [exact Hfresh5 |].
  split; [exact Ha | exact E5].
Qed.

Lemma find_map_fst (p : Role -> bool) (R : list (Role * list string)) :
  List.find p (map fst R) = option_map fst (List.find (fun x => p (fst x)) R).
Proof.
  induction R as [| x R IH]; simpl; [reflexivity |].
  destruct (p (fst x)); [reflexivity | exact IH].
Qed.

Lemma recommendCareer_run s0 R S us :
  tables_at roles skillsData s0 R S -> us <> [] ->
  forall s, s0 ⊆ s ->
    exists s', s0 ⊆ s' /\
      recommendCareer roles skillsData calculateScore coerce {| skills := Some us |} s
      = (s', answer calculateScore coerce us R S).
Proof.
  intros HT Hus s Hs. unfold recommendCareer, answer.
  destruct us as [| u us']; [contradiction |]. set (us := u :: us') in *.
  cbv zeta. cbn [skills default from_option id].
  replace (negb (0 <? length us)%nat) with false by reflexivity.
  destruct (matchedRole_run s0 R S us s HT Hs) as (s1 & Hs1 & E1).
  run_step E1.
  destruct (stable_sort by_matchCount (map (roleMatch us) R) !! 0%nat) as [m |] eqn:Em.
  - destruct (targetRole_run s0 R S m s1 HT Hs1) as (s2 & Hs2 & E2).
    run_step E2. rewrite find_map_fst.
    destruct (List.find (fun x => same_role m (fst x)) R) as [x |] eqn:Ex.
    + apply List.find_some in Ex as [Hx _]. cbn [option_map].
      destruct (missingSkills_run s0 R S us x s2 HT Hx Hs2)
        as (s3 & a & Hs3 & Hfresh & Ha & E3).
      run_step E3.
      destruct (hoare_Array_sort (EA := Element_Obj) s0 a
                  (map (skillEntry calculateScore S) (missing_of us (snd x))) (by_score coerce)
                  Hfresh s3 (conj Hs3 Ha))
        as (s4 & ? & E4 & -> & Hs4 & Hrecs).
      unfold sortedRecommendations. run_step E4.
      change (bind (deref (Some m)) ?k s4) with (k m s4). cbv beta.
      destruct (hoare_Array_slice (A := Obj) s0 a _ 0 3 s4 (conj Hs4 Hrecs))
        as (s5 & top & E5 & Hs5 & Htop & _).
      run_step E5.
      run_step (Array_read_run s5 top _ Htop).
      exists s5. split; [exact Hs5 | reflexivity].
    + exists s2. split; [exact Hs2 | reflexivity].
  - assert (HR0 : R = []).
    { apply lookup_ge_None in Em. rewrite stable_sort_length, length_map in Em.
      destruct R; [reflexivity | simpl in Em; lia]. }
    subst R. run_step (targetRole_run_empty s0 S s1 HT Hs1).
    exists s1. split; [exact Hs1 | reflexivity].
Qed.

(** Whatever the store and the request, and however the handler ends,
    the arrays that were in the store before are unchanged after. *)
Lemma recommendCareer_keeps (s0 : Store) (req : Request) :
  keeps s0 (recommendCareer roles skillsData calculateScore coerce req) (fun _ => True).
Proof.
  unfold recommendCareer, matchedRole, targetRole, missingSkills, sortedRecommendations.
  cbv zeta.
  destruct (negb _); [apply keeps_ret; exact I |].
  eapply keeps_bind.
  { eapply keeps_bind.
    { apply (keeps_Array_map (A := Role) (B := RoleMatch)). intros r.
      eapply keeps_bind.
      { apply (keeps_Array_filter (A := string)). intros x. apply keeps_ret. exact I. }
      intros l _. eapply keeps_bind; [apply keeps_Array_length |].
      intros n _. eapply keeps_bind; [apply keeps_Array_length |].
      intros t _. apply keeps_ret. exact I. }
    intros scored Hscored. cbv beta in Hscored.
    eapply keeps_bind; [apply (keeps_Array_sort (A := RoleMatch)), Hscored |].
    intros sorted _. apply (keeps_Array_get (A := RoleMatch)). }
  intros matchedRole0 _.
  eapply keeps_bind.
  { apply (keeps_Array_find (A := Role)). intros r.
    eapply keeps_bind; [apply keeps_deref |]. intros m _. apply keeps_ret. exact I. }
  intros targetRole0 _.
  eapply keeps_bind.
  { eapply keeps_bind; [apply keeps_deref |]. intros target _.
    eapply keeps_bind.
    { apply (keeps_Array_filter (A := string)). intros x. apply keeps_ret. exact I. }
    intros missing _.
    apply (keeps_Array_map (A := string) (B := Obj)). intros skill.
    eapply keeps_bind.
    { apply (keeps_Array_find (A := Obj)). intros x. apply keeps_ret. exact I. }
    intros skillInfo _. apply keeps_ret. exact I. }
  intros missingSkills0 HmissingSkills. cbv beta in HmissingSkills.
  eapply keeps_bind; [apply (keeps_Array_sort (A := Obj)), HmissingSkills |].
  intros sortedRecommendations0 _.
  eapply keeps_bind; [apply keeps_deref |]. intros m _.
  eapply keeps_bind; [apply (keeps_Array_slice (A := Obj)) |]. intros top _.
  eapply keeps_bind; [apply (keeps_Array_read (A := Obj)) |]. intros recs _.
  apply keeps_ret. exact I.
Qed.

End Verification.

(** * Double-precision rounding and the match percentage *)

Lemma rne_spec (n d : Z) :
  0 <= n -> 0 < d ->
  0 <= rne n d /\ 2 * rne n d * d - d <= 2 * n <= 2 * rne n d * d + d.
Proof.
  intros Hn Hd. unfold rne.
  pose proof (Z.div_mod n d ltac:(lia)) as E.
  pose proof (Z.mod_pos_bound n d Hd) as Hr.
  pose proof (Z.div_pos n d Hn Hd) as Hq.
  destruct (2 * (n mod d) <? d) eqn:E1; [apply Z.ltb_lt in E1; nia |].
  apply Z.ltb_ge in E1.
  destruct (d <? 2 * (n mod d)) eqn:E2; [apply Z.ltb_lt in E2; nia |].
  apply Z.ltb_ge in E2.
  destruct (Z.even (n / d)); nia.
Qed.

Lemma rne_le (n d K : Z) :
  0 <= n -> 0 < d -> n <= K * d -> rne n d <= K.
Proof.
  intros Hn Hd HK. unfold rne.
  pose proof (Z.div_mod n d ltac:(lia)) as E.
  pose proof (Z.mod_pos_bound n d Hd) as Hr.
  assert (Hq : n / d <= K) by (apply Z.div_le_upper_bound; lia).
  destruct (2 * (n mod d) <? d) eqn:E1; [lia |].
  apply Z.ltb_ge in E1.
  assert (n / d < K).
  { destruct (Z.eq_dec (n / d) K) as [Heq |]; [| lia].
    rewrite Heq in E. lia. }
  destruct (d <? 2 * (n mod d)); [lia |].
  destruct (Z.even (n / d)); lia.
Qed.

Lemma floor_log2_ratio_le (n d k : Z) :
  0 < n -> 0 < d -> 0 <= k -> n <= d * 2 ^ k -> floor_log2_ratio n d <= k.
Proof.
  intros Hn Hd Hk Hle.
  assert (Z.log2 n <= k + Z.log2 d).
  { rewrite <- (Z.log2_mul_pow2 d k Hd Hk). apply Z.log2_le_mono. exact Hle. }
  unfold floor_log2_ratio. destruct (if 0 <=? _ then _ else _); lia.
Qed.

(** Rounding a fraction that is at most [K] = [c * 2 ^ j], with [j] above
    the exponent of the last bit, gives a double that is at most [K]. *)
Lemma round_b64_le (n d k c : Z) :
  0 < n -> 0 < d -> 0 <= k < 52 -> 0 < c -> c <= 2 ^ k -> n <= c * d ->
  exists m e, round_b64 n d = DFin m e /\ e < 0 /\ e <= k - 52 /\
              0 <= m <= c * 2 ^ (- e) /\
              2 * m * d - d <= 2 * (n * 2 ^ (- e)) <= 2 * m * d + d.
Proof.
  intros Hn Hd Hk Hc Hck Hle. unfold round_b64.
  replace (n =? 0) with false by (symmetry; apply Z.eqb_neq; lia).
  assert (He : floor_log2_ratio n d <= k).
  { apply floor_log2_ratio_le; try lia.
    assert (0 < 2 ^ k) by (apply Z.pow_pos_nonneg; lia). nia. }
  set (ex := Z.max (floor_log2_ratio n d - 52) (-1074)).
  assert (Hex : ex < 0 /\ ex <= k - 52) by (unfold ex; lia).
  replace (0 <=? ex) with false by (symmetry; apply Z.leb_gt; lia).
  assert (Hp : 0 < 2 ^ (- ex)) by (apply Z.pow_pos_nonneg; lia).
  destruct (rne_spec (n * 2 ^ (- ex)) d ltac:(nia) Hd) as [H0 Hb].
  assert (Hm : rne (n * 2 ^ (- ex)) d <= c * 2 ^ (- ex))
    by (apply rne_le; nia).
  assert (Hov : overflows (rne (n * 2 ^ (- ex)) d) ex = false).
  { unfold overflows.
    replace (0 <=? ex) with false by (symmetry; apply Z.leb_gt; lia).
    apply Z.leb_gt.
    replace (1024 - ex) with (k + (1024 - k) + (- ex)) by lia.
    rewrite !Z.pow_add_r by lia.
    assert (HB : 1 < 2 ^ (1024 - k)) by (apply Z.pow_gt_1; lia).
    assert (HA : 0 < 2 ^ k) by (apply Z.pow_pos_nonneg; lia).
    generalize dependent (rne (n * 2 ^ (- ex)) d).
    generalize dependent (2 ^ (1024 - k)). generalize dependent (2 ^ k).
    generalize dependent (2 ^ (- ex)). clear. intros P HP A HA1 HA2 B HB r Hr1 Hr2 Hr3.
    assert (r <= A * P) by nia. assert (A * P < A * B * P) by nia. lia. }
  rewrite Hov. eexists _, _. split; [reflexivity |].
  repeat split; try lia.
Qed.

(** The percentage is an integer between 0 and 100 as soon as the role has
    a required skill. *)
Lemma matchPercentage_range (m t : nat) :
  (0 < t)%nat -> (m <= t)%nat ->
  exists z, matchPercentage m t = Fin (inject_Z z) /\ 0 <= z <= 100.
Proof.
  intros Ht Hm. unfold matchPercentage, double_of_nat, double_div.
  replace (Z.of_nat t =? 0) with false by (symmetry; apply Z.eqb_neq; lia).
  replace (Z.max (0 - 0) 0) with 0 by reflexivity.
  rewrite !Z.mul_1_r.
  destruct m as [| m'].
  { exists 0. split; [reflexivity | lia]. }
  set (m := S m') in *.
  destruct (round_b64_le (Z.of_nat m) (Z.of_nat t) 0 1) as (m1 & e1 & E1 & He1 & _ & Hm1 & _);
    try lia.
  rewrite E1. unfold double_mul.
  replace (Z.max (e1 + 0) 0) with 0 by lia.
  replace (Z.max (- (e1 + 0)) 0) with (- e1) by lia.
  rewrite Z.mul_1_r.
  assert (Hp1 : 0 < 2 ^ (- e1)) by (apply Z.pow_pos_nonneg; lia).
  destruct (Z.eq_dec m1 0) as [-> | Hm10].
  { exists 0. split; [reflexivity | lia]. }
  destruct (round_b64_le (m1 * 100) (2 ^ (- e1)) 7 100) as (m2 & e2 & E2 & He2 & _ & Hm2 & _);
    try lia.
  rewrite E2. unfold Math_round.
  replace (0 <=? e2) with false by (symmetry; apply Z.leb_gt; lia).
  eexists. split; [reflexivity |].
  assert (Hp2 : 0 < 2 ^ (- e2)) by (apply Z.pow_pos_nonneg; lia).
  replace (- e2 + 1) with (Z.succ (- e2)) by lia.
  rewrite Z.pow_succ_r by lia.
  split.
  - apply Z.div_pos; lia.
  - apply Z.lt_succ_r. apply Z.div_lt_upper_bound; lia.
Qed.

(** Two roundings, each off by at most half a unit in the last place,
    leave [floor (v + 1/2)] where the exact value puts it, unless the exact
    value is a half. *)
Lemma two_roundings_exact (T M m1 m2 P1 P2 : Z) :
  0 < T <= 2 ^ 44 -> 0 < M -> 2 ^ 52 <= P1 -> 2 ^ 45 <= P2 ->
  2 * m1 * T - T <= 2 * (M * P1) <= 2 * m1 * T + T ->
  2 * m2 * P1 - P1 <= 2 * (m1 * 100 * P2) <= 2 * m2 * P1 + P1 ->
  (200 * M + T) mod (2 * T) <> 0 ->
  (2 * m2 + P2) / (2 * P2) = (200 * M + T) / (2 * T).
Proof.
  intros HT HM0 HP1 HP2 Ha Hb Hhalf.
  pose proof (Z.div_mod (200 * M + T) (2 * T) ltac:(lia)) as Hq.
  pose proof (Z.mod_pos_bound (200 * M + T) (2 * T) ltac:(lia)) as Hr.
  set (q := (200 * M + T) / (2 * T)) in *.
  set (r := (200 * M + T) mod (2 * T)) in *.
  assert (Hr1 : 1 <= r <= 2 * T - 1) by lia.
  clearbody q r. clear Hhalf Hr.
  change (2 ^ 44) with 17592186044416 in HT.
  change (2 ^ 52) with 4503599627370496 in HP1.
  change (2 ^ 45) with 35184372088832 in HP2.
  assert (Hslack : 100 * T * P2 + P1 * T < P1 * P2).
  { assert (200 * T < P1) by lia. assert (2 * T <= P2) by lia.
    assert (100 * T * P2 * 2 < P1 * P2) by (apply (Z.mul_lt_mono_pos_r P2 (200 * T) P1) in H; lia).
    assert (P1 * T * 2 <= P1 * P2) by (apply (Z.mul_le_mono_nonneg_l (2 * T) P2 P1) in H0; lia). lia. }
  assert (HTP2 : 0 <= T * P2) by (apply Z.mul_nonneg_nonneg; lia).
  assert (HP1T : 0 <= P1 * T) by (apply Z.mul_nonneg_nonneg; lia).
  assert (Hlo : 200 * M * P1 * P2 - 100 * T * P2 - P1 * T <= 2 * m2 * P1 * T).
  { assert (200 * M * P1 * P2 - 100 * T * P2 <= 200 * m1 * T * P2).
    { destruct Ha as [_ Ha]. apply (Z.mul_le_mono_nonneg_r _ _ (100 * P2)) in Ha; lia. }
    assert (200 * m1 * P2 * T - P1 * T <= 2 * m2 * P1 * T).
    { destruct Hb as [_ Hb]. apply (Z.mul_le_mono_nonneg_r _ _ T) in Hb; lia. }
    lia. }
  assert (Hhi : 2 * m2 * P1 * T <= 200 * M * P1 * P2 + 100 * T * P2 + P1 * T).
  { assert (200 * m1 * T * P2 <= 200 * M * P1 * P2 + 100 * T * P2).
    { destruct Ha as [Ha _]. apply (Z.mul_le_mono_nonneg_r _ _ (100 * P2)) in Ha; lia. }
    assert (2 * m2 * P1 * T <= 200 * m1 * P2 * T + P1 * T).
    { destruct Hb as [Hb _]. apply (Z.mul_le_mono_nonneg_r _ _ T) in Hb; lia. }
    lia. }
  assert (HPP : 0 < P1 * P2) by (apply Z.mul_pos_pos; lia).
  assert (HM : 200 * M * P1 * P2 = (2 * T * q + r - T) * P1 * P2).
  { replace (200 * M) with (2 * T * q + r - T) by lia. reflexivity. }
  assert (Hr2 : P1 * P2 <= r * (P1 * P2)).
  { rewrite <- (Z.mul_1_l (P1 * P2)) at 1.
    apply (Z.mul_le_mono_nonneg_r 1 r (P1 * P2)); lia. }
  assert (Hr3 : r * (P1 * P2) <= (2 * T - 1) * (P1 * P2)).
  { apply Z.mul_le_mono_nonneg_r; lia. }
  assert (HPT : 0 < P1 * T) by (apply Z.mul_pos_pos; lia).
  symmetry. apply Z.div_unique with (r := 2 * m2 + P2 - 2 * P2 * q); [| ring].
  left. split.
  - assert (H : 2 * q * P2 * (P1 * T) <= (2 * m2 + P2) * (P1 * T)).
    { lia. }
    apply Z.mul_le_mono_pos_r in H; lia.
  - assert (H : (2 * m2 + P2) * (P1 * T) < 2 * (q + 1) * P2 * (P1 * T)).
    { lia. }
    apply Z.mul_lt_mono_pos_r in H; lia.
Qed.

(** Away from the exact halves, and for any role with at most [2 ^ 44]
    required skills, the two roundings of the double computation cannot
    move the result: the percentage is the exact ratio rounded to the
    nearest integer. *)
Lemma matchPercentage_exact (m t : nat) :
  (0 < t)%nat -> (m <= t)%nat -> Z.of_nat t <= 2 ^ 44 ->
  (200 * Z.of_nat m + Z.of_nat t) mod (2 * Z.of_nat t) <> 0 ->
  matchPercentage m t = Fin (inject_Z (exact_percentage m t)).
Proof.
  intros Ht Hm Hbig Hhalf. unfold matchPercentage, double_of_nat, double_div.
  replace (Z.of_nat t =? 0) with false by (symmetry; apply Z.eqb_neq; lia).
  replace (Z.max (0 - 0) 0) with 0 by reflexivity.
  rewrite !Z.mul_1_r. unfold exact_percentage.
  destruct m as [| m'].
  { rewrite Z.mul_0_r, Z.add_0_l in Hhalf |- *.
    rewrite Z.div_small by lia. reflexivity. }
  set (m := S m') in *.
  destruct (round_b64_le (Z.of_nat m) (Z.of_nat t) 0 1)
    as (m1 & e1 & E1 & He1 & He1' & Hm1 & Ha); try lia.
  rewrite E1. unfold double_mul.
  replace (Z.max (e1 + 0) 0) with 0 by lia.
  replace (Z.max (- (e1 + 0)) 0) with (- e1) by lia.
  rewrite Z.mul_1_r.
  assert (HP1 : 2 ^ 52 <= 2 ^ (- e1)) by (apply Z.pow_le_mono_r; lia).
  assert (Hm10 : m1 <> 0).
  { intros ->. change (2 ^ 52) with 4503599627370496 in HP1.
    change (2 ^ 44) with 17592186044416 in Hbig. nia. }
  destruct (round_b64_le (m1 * 100) (2 ^ (- e1)) 7 100)
    as (m2 & e2 & E2 & He2 & He2' & Hm2 & Hb); try lia.
  rewrite E2. unfold Math_round.
  replace (0 <=? e2) with false by (symmetry; apply Z.leb_gt; lia).
  do 2 f_equal.
  assert (HP2 : 2 ^ 45 <= 2 ^ (- e2)) by (apply Z.pow_le_mono_r; lia).
  replace (- e2 + 1) with (Z.succ (- e2)) by lia.
  rewrite Z.pow_succ_r by lia.
  apply (two_roundings_exact (Z.of_nat t) (Z.of_nat m) m1 m2 (2 ^ (- e1)) (2 ^ (- e2)));
    try assumption; lia.
Qed.

(** * The two comparison functions *)

Lemma Qcompare_sub (a b : Q) : (a - b ?= 0)%Q = (a ?= b)%Q.
Proof.
  destruct (Qcompare_spec a b) as [H | H | H].
  - apply (proj1 (Qeq_alt _ _)). rewrite H. ring.
  - apply (proj1 (Qlt_alt _ _)). lra.
  - apply (proj1 (Qgt_alt _ _)). lra.
Qed.

Lemma sort_sign_by_matchCount (a b : RoleMatch) :
  sort_sign (by_matchCount a b)
  = (Z.of_nat (matchCount b) ?= Z.of_nat (matchCount a)).
Proof.
  unfold by_matchCount, nat_Number, Number_sub, sort_sign.
  rewrite Qcompare_sub. unfold Qcompare. simpl. rewrite !Z.mul_1_r. reflexivity.
Qed.

(** The head of the sorted match records has the largest count, and is the
    first record of the table order to have it. *)
Lemma by_matchCount_head (l : list RoleMatch) (m : RoleMatch) :
  stable_sort by_matchCount l !! 0%nat = Some m ->
  (forall y, In y l -> (matchCount y <= matchCount m)%nat) /\
  exists i, l !! i = Some m /\
            forall j y, (j < i)%nat -> l !! j = Some y ->
                        (matchCount y < matchCount m)%nat.
Proof.
  intros Hhd.
  destruct (stable_sort_head by_matchCount (fun _ => True)
              (fun a b => (matchCount b <= matchCount a)%nat)) with (l := l) (m := m)
    as (Hmax & i & Hi & Hbefore).
  - intros x y _ _. lia.
  - intros x y z _ _ _. lia.
  - intros x y _ _. rewrite sort_sign_by_matchCount. intros E.
    apply Z.compare_gt_iff in E. lia.
  - intros x y _ _. rewrite sort_sign_by_matchCount. intros E.
    destruct (Z.compare_spec (Z.of_nat (matchCount y)) (Z.of_nat (matchCount x)));
      [lia | lia | congruence].
  - apply List.Forall_forall. auto.
  - exact Hhd.
  - split; [exact Hmax |]. exists i. split; [exact Hi |].
    intros j y Hj Hy. specialize (Hbefore j y Hj Hy). lia.
Qed.

Lemma Number_le_total (x y : Number) :
  x <> NaN -> y <> NaN -> Number_le x y \/ Number_le y x.
Proof.
  destruct x as [| | a |], y as [| | b |]; simpl; try tauto.
  intros _ _. destruct (Qlt_le_dec a b) as [H | H]; [left | right]; lra.
Qed.

Lemma Number_le_trans (x y z : Number) :
  Number_le x y -> Number_le y z -> Number_le x z.
Proof.
  destruct x as [| | a |], y as [| | b |], z as [| | c |]; simpl; try tauto.
  intros. lra.
Qed.

(** [b.score - a.score > 0] exactly when [b]'s score is not at most [a]'s. *)
Lemma Number_sub_behind (x y : Number) :
  x <> NaN -> y <> NaN -> sort_sign (Number_sub y x) = Gt -> ~ Number_le y x.
Proof.
  destruct x as [| | a |], y as [| | b |]; simpl; try tauto; try discriminate.
  intros _ _ E. rewrite Qcompare_sub in E. apply (proj2 (Qgt_alt _ _)) in E. lra.
Qed.

Lemma Number_sub_front (x y : Number) :
  x <> NaN -> y <> NaN -> sort_sign (Number_sub y x) <> Gt -> Number_le y x.
Proof.
  destruct x as [| | a |], y as [| | b |]; simpl; try tauto.
  intros _ _ E. rewrite Qcompare_sub in E.
  destruct (Qcompare_spec b a) as [H | H | H]; [lra | lra | congruence].
Qed.

Lemma Number_eqb_sub (x y v : Number) :
  Number_eqb x v = true -> Number_eqb y v = true -> sort_sign (Number_sub y x) <> Gt.
Proof.
  destruct x as [| | a |], y as [| | b |], v as [| | c |]; simpl; try discriminate.
  intros Ha Hb. apply Qeq_bool_iff in Ha, Hb. rewrite Qcompare_sub.
  assert (E : (b ?= a)%Q = Eq) by (apply (proj1 (Qeq_alt _ _)); rewrite Ha, Hb; reflexivity). rewrite E. discriminate.
Qed.

(** * Plain objects *)

Lemma obj_get_app (k : string) (o1 o2 : Obj) :
  obj_get k (o1 ++ o2)
  = match obj_get k o1 with Some v => Some v | None => obj_get k o2 end.
Proof.
  induction o1 as [| [k' v'] o1 IH]; simpl; [reflexivity |].
  destruct (String.eqb k k'); [reflexivity | exact IH].
Qed.

Lemma obj_get_set (k k' : string) (v : JVal) (o : Obj) :
  obj_get k (obj_set k' v o) = if String.eqb k k' then Some v else obj_get k o.
Proof.
  induction o as [| [k0 v0] o IH]; simpl.
  - destruct (String.eqb k k'); reflexivity.
  - destruct (String.eqb k' k0) eqn:E0; simpl.
    + apply String.eqb_eq in E0. subst k0.
      destruct (String.eqb k k'); reflexivity.
    + destruct (String.eqb k k0) eqn:E1.
      * apply String.eqb_eq in E1. subst k0.
        rewrite String.eqb_sym, E0. reflexivity.
      * exact IH.
Qed.

(** A property of the spread object comes from the source when the source
    defines it, and from the target otherwise. *)
Lemma obj_get_spread (k : string) (target source : Obj) :
  obj_get k (obj_spread target (Some source))
  = match obj_last k source with Some v => Some v | None => obj_get k target end.
Proof.
  unfold obj_spread, obj_last. revert target.
  induction source as [| [k' v'] source IH]; intros target; simpl; [reflexivity |].
  rewrite IH, obj_get_app, obj_get_set. simpl.
  destruct (obj_get k (rev source)); [reflexivity |].
  destruct (String.eqb k k'); reflexivity.
Qed.

Lemma obj_last_NoDup (k : string) (o : Obj) :
  NoDup (map fst o) -> obj_last k o = obj_get k o.
Proof.
  unfold obj_last. induction o as [| [k' v'] o IH]; intros Hnd; simpl; [reflexivity |].
  apply NoDup_cons in Hnd as [Hk' Hnd]. rewrite obj_get_app, (IH Hnd). simpl.
  destruct (String.eqb k k') eqn:E.
  - apply String.eqb_eq in E. subst k'.
    destruct (obj_get k o) as [v |] eqn:Eg; [| reflexivity].
    exfalso. apply Hk'. clear - Eg.
    induction o as [| [k0 v0] o IH]; simpl in *; [discriminate |].
    destruct (String.eqb k k0) eqn:E0.
    + apply String.eqb_eq in E0. subst. left.
    + right. auto.
  - destruct (obj_get k o); reflexivity.
Qed.

(** * The answer of the handler, read off the tables *)

Lemma includes_In (xs : list string) (x : string) :
  includes xs x = true <-> In x xs.
Proof.
  unfold includes. rewrite existsb_exists. split.
  - intros (y & Hy & E). apply String.eqb_eq in E. subst. exact Hy.
  - intros H. exists x. split; [exact H | apply String.eqb_refl].
Qed.

Lemma map_lookup_Some {A B} (f : A -> B) (l : list A) (i : nat) (y : B) :
  map f l !! i = Some y -> exists x, l !! i = Some x /\ f x = y.
Proof.
  revert i. induction l as [| a l IH]; intros [| i] H; simpl in *; try discriminate.
  - injection H as <-. eauto.
  - apply IH. exact H.
Qed.

Lemma NoDup_map_eq {A B} (f : A -> B) (l : list A) (x y : A) :
  NoDup (map f l) -> In x l -> In y l -> f x = f y -> x = y.
Proof.
  induction l as [| a l IH]; simpl; intros Hnd Hx Hy E; [contradiction |].
  apply NoDup_cons in Hnd as [Ha Hnd].
  destruct Hx as [-> | Hx], Hy as [-> | Hy]; auto.
  - exfalso. apply Ha. rewrite E. apply list_elem_of_In, List.in_map, Hy.
  - exfalso. apply Ha. rewrite <- E. apply list_elem_of_In, List.in_map, Hx.
Qed.

Section Results.

Variable roles : loc.
Variable skillsData : loc.
Variable calculateScore : ScoringFunction.
Variable coerce : JVal -> Number.

(** The lookup by name finds a role of the table that carries the name of
    role [x]; it is [x] itself when role names are unique. *)
Lemma find_same_role (us : list string) (R : list (Role * list string))
    (x : Role * list string) :
  In x R ->
  exists y, List.find (fun z => same_role (roleMatch us x) (fst z)) R = Some y /\
            In y R /\ role (fst y) = role (fst x) /\
            (NoDup (role_names R) -> y = x).
Proof.
  intros Hx.
  destruct (List.find (fun z => same_role (roleMatch us x) (fst z)) R) as [y |] eqn:E.
  - apply List.find_some in E as [Hy Hsame].
    unfold same_role in Hsame. simpl in Hsame. apply String.eqb_eq in Hsame.
    exists y. repeat split; auto.
    intros Hnd. apply (NoDup_map_eq (fun z => role (fst z)) R y x Hnd Hy Hx Hsame).
  - exfalso. pose proof (List.find_none _ _ E x Hx) as Hn.
    unfold same_role in Hn. simpl in Hn. rewrite String.eqb_refl in Hn. discriminate.
Qed.

Lemma recommendCareer_result s R S us :
  tables_at roles skillsData s R S -> us <> [] -> R <> [] ->
  exists s' i x y,
    s ⊆ s' /\ first_maximal us R i x /\
    In y R /\ role (fst y) = role (fst x) /\ (NoDup (role_names R) -> y = x) /\
    recommendCareer roles skillsData calculateScore coerce {| skills := Some us |} s
    = (s', Ok (res_json (result_body (roleMatch us x) (ranked calculateScore coerce S us y)))).
Proof.
  intros HT Hus HR.
  destruct (recommendCareer_run roles skillsData calculateScore coerce s R S us HT Hus s)
    as (s' & Hs' & E); [reflexivity |].
  unfold answer in E.
  destruct (stable_sort by_matchCount (map (roleMatch us) R) !! 0%nat) as [m |] eqn:Em.
  2: { apply lookup_ge_None in Em. rewrite stable_sort_length, length_map in Em.
       destruct R; [contradiction | simpl in Em; lia]. }
  destruct (by_matchCount_head _ _ Em) as (Hmax & i & Hi & Hbefore).
  apply map_lookup_Some in Hi as (x & Hi & <-).
  assert (Hx : In x R) by (apply list_elem_of_In, list_elem_of_lookup; eauto).
  destruct (find_same_role us R x Hx) as (y & Ey & Hy & Hname & Huniq).
  rewrite Ey in E.
  exists s', i, x, y. repeat split; auto.
  - intros z Hz. apply (Hmax (roleMatch us z)). apply List.in_map. exact Hz.
  - intros j z Hj Hz. apply (Hbefore j (roleMatch us z) Hj).
    clear - Hz. revert j Hz. induction R as [| a R IH]; intros [| j] Hz; simpl in *;
      try discriminate.
    + injection Hz as ->. reflexivity.
    + apply IH. exact Hz.
Qed.

End Results.

(** ** The sample stores hold their tables *)

Lemma example_tables :
  tables_at 1%positive 2%positive example_store example_roles example_skills.
Proof. repeat split; try (vm_compute; reflexivity). repeat constructor. Qed.

(** The example scenario of the specification: "Backend Developer", 33,
    and the entries for "SQL" and "Docker" in that order. *)
Example example_scenario :
  snd (recommendCareer 1%positive 2%positive by_demand no_coercion
         {| skills := Some ["Node"] |} example_store)
  = Ok {| status := 200;
          body := JObj
            [("role", JStr "Backend Developer");
             ("matchPercentage", JNum (Fin (inject_Z 33)));
             ("recommendedSkills",
              JArr [JObj [("skill", JStr "SQL"); ("score", JNum (Fin 9));
                          ("name", JStr "SQL"); ("demand", JNum (Fin 9))];
                    JObj [("skill", JStr "Docker"); ("score", JNum (Fin 7));
                          ("name", JStr "Docker"); ("demand", JNum (Fin 7))]])] |}.
Proof. vm_compute. reflexivity. Qed.

Lemma shadow_tables :
  tables_at 1%positive 2%positive shadow_store shadow_roles shadow_skills.
Proof. repeat split; try (vm_compute; reflexivity). repeat constructor. Qed.

(** ** Small percentages, by evaluation *)

Lemma Number_Z_spec (x : Number) (z : Z) : Number_Z x = Some z -> x = Fin (inject_Z z).
Proof.
  destruct x as [| | [n d] |]; simpl; try discriminate.
  destruct d; try discriminate. intros [= ->]. reflexivity.
Qed.

Lemma exact_upto_spec (T m t : nat) :
  exact_upto T = true -> (0 < t <= T)%nat -> (m <= t)%nat ->
  matchPercentage m t = Fin (inject_Z (exact_percentage m t)).
Proof.
  intros H Ht Hm. unfold exact_upto in H. rewrite forallb_forall in H.
  specialize (H t ltac:(apply in_seq; lia)). rewrite forallb_forall in H.
  specialize (H m ltac:(apply in_seq; lia)).
  destruct (Number_Z (matchPercentage m t)) as [z |] eqn:E; [| discriminate].
  apply Z.eqb_eq in H. subst z. apply Number_Z_spec. exact E.
Qed.

Lemma exact_upto_39 : exact_upto 39 = true.
Proof. vm_compute. reflexivity. Qed.

Lemma matchPercentage_exact_small (m t : nat) :
  (0 < t < 40)%nat -> (m <= t)%nat ->
  matchPercentage m t = Fin (inject_Z (exact_percentage m t)).
Proof.
  intros Ht Hm. apply (exact_upto_spec 39 m t exact_upto_39); lia.
Qed.

(** The model of double arithmetic computes what the machine's binary64
    operations compute, on every role of up to 64 required skills. *)
Lemma double_model_matches_machine : machine_agrees_upto 64 = true.
Proof. vm_compute. reflexivity. Qed.

(** On the machine too, 23 of 40 comes out as 57. *)
Lemma machine_23_of_40 : machine_round (machine_percentage 23 40) = Some 57.
Proof. vm_compute. reflexivity. Qed.

(** * The properties of the handler *)

(** ** Validation *)

(** C5. A request whose body has no [skills] field, or whose [skills] is
    the empty array, is answered with status 400 and the body
    [{"message": "Skills are required"}].  The recommendation engine is not
    run: the answer is given on every store (also one on which role
    matching would throw or get stuck), whatever the scoring function, and
    the store is returned as it was, so that no array has been created or
    sorted. *)
Theorem empty_skills_rejected
    (roles skillsData : loc) (calculateScore : ScoringFunction)
    (coerce : JVal -> Number) (req : Request) (s : Store) :
  skills req = None \/ skills req = Some [] ->
  recommendCareer roles skillsData calculateScore coerce req s
  = (s, Ok {| status := 400;
              body := JObj [("message", JStr "Skills are required")] |}).
Proof.
  intros [E | E]; unfold recommendCareer; rewrite E; reflexivity.
Qed.

Lemma empty_skills_rejected_witness :
  recommendCareer 1%positive 2%positive (fun _ => Fin 0) (fun _ => NaN)
    {| skills := Some [] |} ∅
  = (∅, Ok {| status := 400;
              body := JObj [("message", JStr "Skills are required")] |}).
Proof.
  apply (empty_skills_rejected 1%positive 2%positive (fun _ => Fin 0) (fun _ => NaN)
           {| skills := Some [] |} ∅).
  right. reflexivity.
Defined.

(** ** Role selection *)

(** C1. On non-empty [userSkills] and a non-empty Roles table the handler
    answers with status 200, and the role it names is the one that comes
    first in table order among the roles with the largest match count (the
    number of the role's required skills that are among the user's): no
    role has a larger count, and every role listed before it has a
    strictly smaller one. *)
Theorem first_maximal_role_chosen
    (roles skillsData : loc) (calculateScore : ScoringFunction)
    (coerce : JVal -> Number) (s : Store) (R : list (Role * list string))
    (S : list Obj) (us : list string) :
  tables_at roles skillsData s R S -> us <> [] -> R <> [] ->
  exists s' resp i x,
    recommendCareer roles skillsData calculateScore coerce {| skills := Some us |} s
    = (s', Ok resp) /\
    status resp = 200%nat /\
    first_maximal us R i x /\
    body_field "role" resp = Some (JStr (role (fst x))).
Proof.
  intros HT Hus HR.
  destruct (recommendCareer_result roles skillsData calculateScore coerce s R S us HT Hus HR)
    as (s' & i & x & y & _ & Hmax & _ & _ & _ & E).
  exists s'. eexists. exists i, x. split; [exact E |].
  split; [reflexivity |]. split; [exact Hmax | reflexivity].
Qed.

Lemma first_maximal_role_chosen_witness :
  exists s' resp i x,
    recommendCareer 1%positive 2%positive by_demand no_coercion
      {| skills := Some ["Node"] |} example_store = (s', Ok resp) /\
    status resp = 200%nat /\
    first_maximal ["Node"] example_roles i x /\
    body_field "role" resp = Some (JStr (role (fst x))).
Proof.
  apply (first_maximal_role_chosen 1%positive 2%positive by_demand no_coercion
           example_store example_roles example_skills ["Node"]).
  - exact example_tables.
  - discriminate.
  - discriminate.
Defined.

(** C7. Given a non-empty Roles table, role selection returns a match
    record, and the lookup of a role by the name in that record finds one:
    a role of that name whose [requiredSkills] array is in the store, so
    that the filter over it, and with it the construction of the missing
    skills, goes through. *)
Theorem second_lookup_succeeds
    (roles skillsData : loc) (calculateScore : ScoringFunction)
    (s : Store) (R : list (Role * list string)) (S : list Obj) (us : list string) :
  tables_at roles skillsData s R S -> R <> [] ->
  exists s1 m s2 target ss,
    matchedRole roles us s = (s1, Ok (Some m)) /\
    targetRole roles (Some m) s1 = (s2, Ok (Some target)) /\
    role target = match_role m /\
    s2 !! requiredSkills target = Some (AStrings ss) /\
    exists s3 a, missingSkills skillsData calculateScore us (Some target) s2 = (s3, Ok a).
Proof.
  intros HT HR.
  destruct (matchedRole_run roles skillsData s R S us s HT) as (s1 & Hs1 & E1);
    [reflexivity |].
  destruct (stable_sort by_matchCount (map (roleMatch us) R) !! 0%nat) as [m |] eqn:Em.
  2: { apply lookup_ge_None in Em. rewrite stable_sort_length, length_map in Em.
       destruct R; [contradiction | simpl in Em; lia]. }
  assert (Hm : In m (map (roleMatch us) R)).
  { apply (Permutation_in _ (stable_sort_perm by_matchCount _)).
    apply list_elem_of_In, list_elem_of_lookup. eauto. }
  apply List.in_map_iff in Hm as (x & <- & Hx).
  destruct (targetRole_run roles skillsData s R S (roleMatch us x) s1 HT Hs1)
    as (s2 & Hs2 & E2).
  rewrite find_map_fst in E2.
  destruct (find_same_role us R x Hx) as (y & Ey & Hy & Hname & _).
  rewrite Ey in E2. simpl in E2.
  destruct (missingSkills_run roles skillsData calculateScore s R S us y s2 HT Hy Hs2)
    as (s3 & a & _ & _ & _ & E3).
  exists s1, (roleMatch us x), s2, (fst y), (snd y).
  split; [exact E1 |]. split; [exact E2 |]. split; [exact Hname |].
  split; [| exists s3, a; exact E3].
  eapply lookup_weaken; [| exact Hs2].
  exact (tables_at_skills roles skillsData s R S y HT Hy).
Qed.

Lemma second_lookup_succeeds_witness :
  exists s1 m s2 target ss,
    matchedRole 1%positive ["Node"] example_store = (s1, Ok (Some m)) /\
    targetRole 1%positive (Some m) s1 = (s2, Ok (Some target)) /\
    role target = match_role m /\
    s2 !! requiredSkills target = Some (AStrings ss) /\
    exists s3 a, missingSkills 2%positive by_demand ["Node"] (Some target) s2 = (s3, Ok a).
Proof.
  apply (second_lookup_succeeds 1%positive 2%positive by_demand
           example_store example_roles example_skills ["Node"]).
  - exact example_tables.
  - discriminate.
Defined.

(** ** The tables are read, never written *)

Lemma tables_at_kept
    (roles skillsData : loc) (calculateScore : ScoringFunction)
    (coerce : JVal -> Number) (req : Request) (s : Store)
    (R : list (Role * list string)) (S : list Obj) :
  tables_at roles skillsData s R S ->
  tables_at roles skillsData
    (fst (recommendCareer roles skillsData calculateScore coerce req s)) R S.
Proof.
  destruct (recommendCareer_keeps roles skillsData calculateScore coerce s req s)
    as [Hsub _]; [reflexivity |].
  intros (Hroles & HR & HS). repeat split.
  - eapply lookup_weaken; eauto.
  - rewrite List.Forall_forall in HR |- *. intros x Hx.
    eapply lookup_weaken; [exact (HR x Hx) | exact Hsub].
  - eapply lookup_weaken; eauto.
Qed.

(** C9. Whatever the request and the store, and however the handler ends,
    every array that was in the store before the request is unchanged
    after it: the two in-place sorts work on arrays created during the
    request.  In particular a store that held the Roles and Skills tables
    still holds them. *)
Theorem tables_unchanged
    (roles skillsData : loc) (calculateScore : ScoringFunction)
    (coerce : JVal -> Number) (req : Request) (s : Store) :
  s ⊆ fst (recommendCareer roles skillsData calculateScore coerce req s) /\
  forall R S, tables_at roles skillsData s R S ->
    tables_at roles skillsData
      (fst (recommendCareer roles skillsData calculateScore coerce req s)) R S.
Proof.
  split.
  - destruct (recommendCareer_keeps roles skillsData calculateScore coerce s req s)
      as [Hsub _]; [reflexivity | exact Hsub].
  - intros R S. apply tables_at_kept.
Qed.

Lemma tables_unchanged_witness :
  tables_at 1%positive 2%positive
    (fst (recommendCareer 1%positive 2%positive by_demand no_coercion
            {| skills := Some ["Node"] |} example_store))
    example_roles example_skills.
Proof.
  apply (tables_unchanged 1%positive 2%positive by_demand no_coercion
           {| skills := Some ["Node"] |} example_store).
  exact example_tables.
Defined.

(** ** One request, one answer *)

(** C8. The answer depends on the request and the two tables only: on any
    two stores that hold the same Roles and Skills tables, whatever else
    they hold, the same request gets the same outcome, the whole response
    included.  And a store that held the tables holds them after the
    request, so that a second invocation is such a case. *)
Theorem same_request_same_answer
    (roles skillsData : loc) (calculateScore : ScoringFunction)
    (coerce : JVal -> Number) (req : Request) (s1 s2 : Store)
    (R : list (Role * list string)) (S : list Obj) :
  tables_at roles skillsData s1 R S -> tables_at roles skillsData s2 R S ->
  snd (recommendCareer roles skillsData calculateScore coerce req s1)
  = snd (recommendCareer roles skillsData calculateScore coerce req s2) /\
  snd (recommendCareer roles skillsData calculateScore coerce req
         (fst (recommendCareer roles skillsData calculateScore coerce req s1)))
  = snd (recommendCareer roles skillsData calculateScore coerce req s1).
Proof.
  intros H1 H2.
  assert (Hsame : forall sa sb, tables_at roles skillsData sa R S ->
            tables_at roles skillsData sb R S ->
            snd (recommendCareer roles skillsData calculateScore coerce req sa)
            = snd (recommendCareer roles skillsData calculateScore coerce req sb)).
  { intros sa sb Ha Hb. destruct req as [[us |]].
    - destruct us as [| u us'].
      + reflexivity.
      + destruct (recommendCareer_run roles skillsData calculateScore coerce
                    sa R S (u :: us') Ha ltac:(discriminate) sa) as (sa' & _ & Ea);
          [reflexivity |].
        destruct (recommendCareer_run roles skillsData calculateScore coerce
                    sb R S (u :: us') Hb ltac:(discriminate) sb) as (sb' & _ & Eb);
          [reflexivity |].
        rewrite Ea, Eb. reflexivity.
    - reflexivity. }
  split; [apply Hsame; assumption |].
  apply Hsame; [| assumption].
  apply tables_at_kept. assumption.
Qed.

Lemma same_request_same_answer_witness :
  snd (recommendCareer 1%positive 2%positive by_demand no_coercion
         {| skills := Some ["Node"] |} example_store)
  = snd (recommendCareer 1%positive 2%positive by_demand no_coercion
           {| skills := Some ["Node"] |}
           (<[9%positive := AStrings ["left"; "over"]]> example_store)) /\
  snd (recommendCareer 1%positive 2%positive by_demand no_coercion
         {| skills := Some ["Node"] |}
         (fst (recommendCareer 1%positive 2%positive by_demand no_coercion
                 {| skills := Some ["Node"] |} example_store)))
  = snd (recommendCareer 1%positive 2%positive by_demand no_coercion
           {| skills := Some ["Node"] |} example_store).
Proof.
  apply (same_request_same_answer 1%positive 2%positive by_demand no_coercion
           {| skills := Some ["Node"] |} example_store
           (<[9%positive := AStrings ["left"; "over"]]> example_store)
           example_roles example_skills).
  - exact example_tables.
  - repeat split; try (vm_compute; reflexivity). repeat constructor.
Defined.

(** ** The entries of [recommendedSkills] *)

Lemma In_take {A} (n : nat) (l : list A) (x : A) : In x (take n l) -> In x l.
Proof.
  revert l. induction n as [| n IH]; intros [| a l]; simpl; try tauto.
  intros [-> | H]; auto.
Qed.

Lemma In_missing_of (us ss : list string) (k : string) :
  In k (missing_of us ss) <-> In k ss /\ ~ In k us.
Proof.
  unfold missing_of. rewrite List.filter_In. split.
  - intros [H1 H2]. split; [exact H1 |]. intros Hin.
    apply includes_In in Hin. rewrite Hin in H2. discriminate.
  - intros [H1 H2]. split; [exact H1 |].
    destruct (includes us k) eqn:E; [| reflexivity].
    exfalso. apply H2, includes_In, E.
Qed.

(** A field of the entry built for a skill is what the skill's entry in the
    Skills table gives it, and otherwise what the handler computed. *)
Lemma skillEntry_field (calculateScore : ScoringFunction) (S : list Obj)
    (k f : string) :
  obj_get f (skillEntry calculateScore S k)
  = match overrides S k f with
    | Some v => Some v
    | None => obj_get f [("skill", JStr k);
                         ("score", JNum (calculateScore (List.find (name_is k) S)))]
    end.
Proof.
  unfold skillEntry, overrides, recommendation.
  destruct (List.find (name_is k) S) as [info |]; [| reflexivity].
  apply obj_get_spread.
Qed.

(** The order of the returned entries is the order of the skill names
    sorted by the scores their entries carry. *)
Lemma ranked_names (calculateScore : ScoringFunction) (coerce : JVal -> Number)
    (S : list Obj) (us : list string) (y : Role * list string) :
  ranked calculateScore coerce S us y
  = map (skillEntry calculateScore S)
      (take 3 (stable_sort
                 (fun a b => Number_sub (score_carried calculateScore coerce S b)
                                        (score_carried calculateScore coerce S a))
                 (missing_of us (snd y)))).
Proof.
  unfold ranked. rewrite stable_sort_map. apply List.firstn_map.
Qed.

(** X17.  On non-empty [userSkills] and a non-empty Roles table, every
    entry of [recommendedSkills] is the entry built for a skill that is
    among the required skills of the role the handler looked up by the
    chosen name (the matched role itself when role names are unique) and
    that is not among the user's skills.  The entry's [skill] field is the
    name of that skill when the Skills-table entry found for the skill has
    no field named [skill] of its own. *)
Theorem recommended_skills_are_missing
    (roles skillsData : loc) (calculateScore : ScoringFunction)
    (coerce : JVal -> Number) (s : Store) (R : list (Role * list string))
    (S : list Obj) (us : list string) :
  tables_at roles skillsData s R S -> us <> [] -> R <> [] ->
  exists s' resp i x y recs,
    recommendCareer roles skillsData calculateScore coerce {| skills := Some us |} s
    = (s', Ok resp) /\
    first_maximal us R i x /\
    In y R /\ role (fst y) = role (fst x) /\ (NoDup (role_names R) -> y = x) /\
    body_field "recommendedSkills" resp = Some (JArr (map JObj recs)) /\
    forall e, In e recs ->
      exists k, In k (snd y) /\ ~ In k us /\
                e = skillEntry calculateScore S k /\
                (overrides S k "skill" = None -> obj_get "skill" e = Some (JStr k)).
Proof.
  intros HT Hus HR.
  destruct (recommendCareer_result roles skillsData calculateScore coerce s R S us HT Hus HR)
    as (s' & i & x & y & _ & Hmax & Hy & Hname & Huniq & E).
  exists s'. eexists. exists i, x, y, (ranked calculateScore coerce S us y).
  split; [exact E |]. repeat (split; [assumption || reflexivity |]).
  intros e He. unfold ranked in He. apply In_take in He.
  apply (Permutation_in _ (stable_sort_perm _ _)) in He.
  apply List.in_map_iff in He as (k & <- & Hk).
  apply In_missing_of in Hk as [Hk Hus'].
  exists k. repeat split; auto.
  intros Hov. rewrite skillEntry_field, Hov. reflexivity.
Qed.

Lemma recommended_skills_are_missing_witness :
  exists s' resp i x y recs,
    recommendCareer 1%positive 2%positive by_demand no_coercion
      {| skills := Some ["Node"] |} example_store = (s', Ok resp) /\
    first_maximal ["Node"] example_roles i x /\
    In y example_roles /\ role (fst y) = role (fst x) /\
    (NoDup (role_names example_roles) -> y = x) /\
    body_field "recommendedSkills" resp = Some (JArr (map JObj recs)) /\
    forall e, In e recs ->
      exists k, In k (snd y) /\ ~ In k ["Node"] /\
                e = skillEntry by_demand example_skills k /\
                (overrides example_skills k "skill" = None ->
                 obj_get "skill" e = Some (JStr k)).
Proof.
  apply (recommended_skills_are_missing 1%positive 2%positive by_demand no_coercion
           example_store example_roles example_skills ["Node"]).
  - exact example_tables.
  - discriminate.
  - discriminate.
Defined.

(** C3.  The handler breaks it.  The entry is built as
    [{ skill, score, ...skillInfo }], the metadata spread after the computed
    fields: with a Skills-table entry for "SQL" that has a field [skill] of
    value "Excel", the first recommended entry names "Excel", which the
    role does not require and which the user has. *)
Lemma recommended_skill_not_missing :
  exists s' resp e rest,
    recommendCareer 1%positive 2%positive by_demand no_coercion
      {| skills := Some ["Excel"] |} renamed_store = (s', Ok resp) /\
    body_field "recommendedSkills" resp = Some (JArr (JObj e :: rest)) /\
    obj_get "skill" e = Some (JStr "Excel") /\
    In "Excel" ["Excel"] /\ ~ In "Excel" ["R"; "SQL"].
Proof.
  destruct (recommendCareer 1%positive 2%positive by_demand no_coercion
              {| skills := Some ["Excel"] |} renamed_store) as [s' o] eqn:E.
  apply (f_equal snd) in E. vm_compute in E. subst o.
  exists s'. eexists. eexists. eexists. split; [reflexivity |].
  split; [reflexivity |]. split; [reflexivity |].
  split; [left; reflexivity |].
  intros [H | [H | []]]; discriminate.
Qed.

(** C6.  Nothing is asked of the Skills table: on non-empty [userSkills]
    and a non-empty Roles table the handler answers with status 200, and a
    missing skill that has no entry in the Skills table still gets an entry
    among the ranked candidates, made of its name and the score the scoring
    function gives to absent metadata. *)
Theorem missing_metadata_tolerated
    (roles skillsData : loc) (calculateScore : ScoringFunction)
    (coerce : JVal -> Number) (s : Store) (R : list (Role * list string))
    (S : list Obj) (us : list string) :
  tables_at roles skillsData s R S -> us <> [] -> R <> [] ->
  exists s' resp i x y candidates,
    recommendCareer roles skillsData calculateScore coerce {| skills := Some us |} s
    = (s', Ok resp) /\
    status resp = 200%nat /\
    first_maximal us R i x /\
    In y R /\ role (fst y) = role (fst x) /\
    body_field "recommendedSkills" resp = Some (JArr (map JObj (take 3 candidates))) /\
    forall k, In k (snd y) -> ~ In k us -> List.find (name_is k) S = None ->
      In [("skill", JStr k); ("score", JNum (calculateScore None))] candidates.
Proof.
  intros HT Hus HR.
  destruct (recommendCareer_result roles skillsData calculateScore coerce s R S us HT Hus HR)
    as (s' & i & x & y & _ & Hmax & Hy & Hname & _ & E).
  exists s'. eexists. exists i, x, y.
  exists (stable_sort (by_score coerce)
            (map (skillEntry calculateScore S) (missing_of us (snd y)))).
  split; [exact E |]. repeat (split; [assumption || reflexivity |]).
  intros k Hk Hnot Hfind.
  apply (Permutation_in _ (Permutation_sym (stable_sort_perm _ _))).
  apply List.in_map_iff. exists k. split.
  - unfold skillEntry. rewrite Hfind. reflexivity.
  - apply In_missing_of. auto.
Qed.

Lemma missing_metadata_tolerated_witness :
  exists s' resp i x y candidates,
    recommendCareer 1%positive 2%positive by_demand no_coercion
      {| skills := Some ["CSS"] |} example_store = (s', Ok resp) /\
    status resp = 200%nat /\
    first_maximal ["CSS"] example_roles i x /\
    In y example_roles /\ role (fst y) = role (fst x) /\
    body_field "recommendedSkills" resp = Some (JArr (map JObj (take 3 candidates))) /\
    forall k, In k (snd y) -> ~ In k ["CSS"] ->
      List.find (name_is k) example_skills = None ->
      In [("skill", JStr k); ("score", JNum (by_demand None))] candidates.
Proof.
  apply (missing_metadata_tolerated 1%positive 2%positive by_demand no_coercion
           example_store example_roles example_skills ["CSS"]).
  - exact example_tables.
  - discriminate.
  - discriminate.
Defined.

(** ** The ranking *)

(** Sorting skill names by the scores their entries carry, when these are
    numbers: a rearrangement, in descending order of carried score, skills
    of equal score in their original order. *)
Lemma ranking_by_carried_score (calculateScore : ScoringFunction)
    (coerce : JVal -> Number) (S : list Obj) (missing : list string) :
  (forall k, In k missing -> score_carried calculateScore coerce S k <> NaN) ->
  let names :=
    stable_sort (fun a b => Number_sub (score_carried calculateScore coerce S b)
                                       (score_carried calculateScore coerce S a))
                missing in
  Permutation names missing /\
  StronglySorted
    (fun a b => Number_le (score_carried calculateScore coerce S b)
                          (score_carried calculateScore coerce S a)) names /\
  (forall v,
     List.filter (fun k => Number_eqb (score_carried calculateScore coerce S k) v) names
     = List.filter (fun k => Number_eqb (score_carried calculateScore coerce S k) v) missing).
Proof.
  intros Hnum.
  set (c := score_carried calculateScore coerce S) in *.
  set (cmp := fun a b : string => Number_sub (c b) (c a)).
  cbv zeta. split; [apply stable_sort_perm |]. split.
  - apply (stable_sort_sorted cmp (fun k => c k <> NaN)).
    + intros a b Ha Hb. destruct (Number_le_total (c a) (c b) Ha Hb); auto.
    + intros a b d _ _ _ H1 H2. exact (Number_le_trans _ _ _ H2 H1).
    + intros a b Ha Hb. unfold cmp. apply Number_sub_behind; assumption.
    + intros a b Ha Hb. unfold cmp. apply Number_sub_front; assumption.
    + apply List.Forall_forall. exact Hnum.
  - intros v. apply stable_sort_stable. intros a b _ _ Ha Hb.
    unfold cmp. exact (Number_eqb_sub _ _ _ Ha Hb).
Qed.

(** The returned entries, whatever order the sort leaves them in: as many
    as there are missing skills, three at most, each of them the entry
    built for a missing skill. *)
Lemma ranked_entries (calculateScore : ScoringFunction) (coerce : JVal -> Number)
    (S : list Obj) (us : list string) (y : Role * list string) :
  length (ranked calculateScore coerce S us y)
  = Nat.min 3 (length (missing_of us (snd y))) /\
  forall e, In e (ranked calculateScore coerce S us y) ->
    exists k, In k (missing_of us (snd y)) /\ e = skillEntry calculateScore S k.
Proof.
  unfold ranked. split.
  - rewrite length_take, stable_sort_length, length_map. reflexivity.
  - intros e He. apply In_take in He.
    apply (Permutation_in _ (stable_sort_perm _ _)) in He.
    apply List.in_map_iff in He as (k & <- & Hk). exists k. auto.
Qed.

(** Their order, when the scores the candidates carry are numbers. *)
Lemma ranked_sorted (calculateScore : ScoringFunction) (coerce : JVal -> Number)
    (S : list Obj) (us : list string) (y : Role * list string) :
  (forall k, In k (missing_of us (snd y)) ->
             score_carried calculateScore coerce S k <> NaN) ->
  exists names,
    ranked calculateScore coerce S us y
    = map (skillEntry calculateScore S) (take 3 names) /\
    Permutation names (missing_of us (snd y)) /\
    StronglySorted
      (fun a b => Number_le (score_carried calculateScore coerce S b)
                            (score_carried calculateScore coerce S a)) names /\
    (forall v,
       List.filter (fun k => Number_eqb (score_carried calculateScore coerce S k) v) names
       = List.filter (fun k => Number_eqb (score_carried calculateScore coerce S k) v)
           (missing_of us (snd y))).
Proof.
  intros Hnum.
  destruct (ranking_by_carried_score calculateScore coerce S (missing_of us (snd y)) Hnum)
    as (Hperm & Hsorted & Hstable).
  eexists. split; [apply ranked_names |]. auto.
Qed.

(** X18.  On non-empty [userSkills] and a non-empty Roles table,
    [recommendedSkills] has at most three entries; and provided the score
    each candidate entry carries is a number (not NaN), it holds the
    entries of the first at most three of the missing skills of the
    looked-up role, these skills being arranged by descending carried
    score, skills of equal score in the order of the scan of
    [requiredSkills].  The score an entry carries is the scoring function's
    output when the Skills-table entry of the skill has no field named
    [score] of its own. *)
Theorem recommended_skills_ranked
    (roles skillsData : loc) (calculateScore : ScoringFunction)
    (coerce : JVal -> Number) (s : Store) (R : list (Role * list string))
    (S : list Obj) (us : list string) :
  tables_at roles skillsData s R S -> us <> [] -> R <> [] ->
  exists s' resp i x y recs,
    recommendCareer roles skillsData calculateScore coerce {| skills := Some us |} s
    = (s', Ok resp) /\
    first_maximal us R i x /\
    In y R /\ role (fst y) = role (fst x) /\ (NoDup (role_names R) -> y = x) /\
    body_field "recommendedSkills" resp = Some (JArr (map JObj recs)) /\
    (length recs <= 3)%nat /\
    (forall k, overrides S k "score" = None ->
       score_carried calculateScore coerce S k
       = calculateScore (List.find (name_is k) S)) /\
    ((forall k, In k (missing_of us (snd y)) ->
                score_carried calculateScore coerce S k <> NaN) ->
     exists names,
       recs = map (skillEntry calculateScore S) (take 3 names) /\
       Permutation names (missing_of us (snd y)) /\
       StronglySorted
         (fun a b => Number_le (score_carried calculateScore coerce S b)
                               (score_carried calculateScore coerce S a)) names /\
       (forall v,
          List.filter (fun k => Number_eqb (score_carried calculateScore coerce S k) v) names
          = List.filter (fun k => Number_eqb (score_carried calculateScore coerce S k) v)
              (missing_of us (snd y)))).
Proof.
  intros HT Hus HR.
  destruct (recommendCareer_result roles skillsData calculateScore coerce s R S us HT Hus HR)
    as (s' & i & x & y & _ & Hmax & Hy & Hname & Huniq & E).
  destruct (ranked_entries calculateScore coerce S us y) as [Hlen _].
  exists s'. eexists. exists i, x, y, (ranked calculateScore coerce S us y).
  split; [exact E |]. repeat (split; [assumption || reflexivity |]).
  split; [apply (eq_ind_r (fun n => (n <= 3)%nat) (Nat.le_min_l _ _) Hlen) |].
  split.
  - intros k Hov. unfold score_carried. rewrite skillEntry_field, Hov. reflexivity.
  - exact (ranked_sorted calculateScore coerce S us y).
Qed.

Lemma recommended_skills_ranked_witness :
  exists s' resp names,
    recommendCareer 1%positive 2%positive by_demand no_coercion
      {| skills := Some ["Node"] |} example_store = (s', Ok resp) /\
    body_field "recommendedSkills" resp
    = Some (JArr (map JObj (map (skillEntry by_demand example_skills) (take 3 names)))) /\
    StronglySorted
      (fun a b => Number_le (score_carried by_demand no_coercion example_skills b)
                            (score_carried by_demand no_coercion example_skills a)) names.
Proof.
  destruct (recommended_skills_ranked 1%positive 2%positive by_demand no_coercion
              example_store example_roles example_skills ["Node"]
              example_tables ltac:(discriminate) ltac:(discriminate))
    as (s' & resp & i & x & y & recs & E & _ & Hy & _ & _ & Hrecs & _ & _ & Hsorted).
  destruct Hsorted as (names & -> & _ & Hs & _).
  { intros k Hk. apply In_missing_of in Hk as [Hk _].
    destruct Hy as [<- | [<- | []]]; simpl in Hk;
      repeat (destruct Hk as [<- | Hk]; [vm_compute; discriminate |]);
      destruct Hk. }
  exists s', resp, names. auto.
Defined.

(** C4.  The handler breaks it.  The final sort reads the [score] property
    of the merged entry [{ skill, score, ...skillInfo }], which a [score]
    field of the Skills-table entry has overwritten: with table entries
    that have a [score] field of their own, "SQL" is recommended before "R"
    although the scoring function scores "R" higher (10 against 5). *)
Lemma recommended_skills_not_ranked_by_score :
  exists s' resp e1 e2,
    recommendCareer 1%positive 2%positive by_demand no_coercion
      {| skills := Some ["Python"] |} rescored_store = (s', Ok resp) /\
    body_field "recommendedSkills" resp = Some (JArr [JObj e1; JObj e2]) /\
    obj_get "skill" e1 = Some (JStr "SQL") /\
    obj_get "skill" e2 = Some (JStr "R") /\
    by_demand (List.find (name_is "SQL") rescored_skills) = Fin 5 /\
    by_demand (List.find (name_is "R") rescored_skills) = Fin 10 /\
    ~ Number_le (Fin 10) (Fin 5).
Proof.
  destruct (recommendCareer 1%positive 2%positive by_demand no_coercion
              {| skills := Some ["Python"] |} rescored_store) as [s' o] eqn:E.
  apply (f_equal snd) in E. vm_compute in E. subst o.
  exists s'. eexists. eexists. eexists. split; [reflexivity |].
  repeat (split; [reflexivity |]).
  simpl. intros H. apply Qle_bool_iff in H. discriminate.
Qed.

(** C10.  A field named [skill] or [score] in the Skills-table entry found
    for a skill takes the place of the name, respectively of the computed
    score, in the entry built for that skill, whatever the value of the
    field.  The comparison function of the final sort reads the [score]
    property of the built entries, so what it compares is the value each
    entry carries: for a skill whose table entry has a [score] field, what
    is read from that field and not the output of the scoring function.
    The recommended entries are entries built for missing skills of the
    looked-up role; when the scores these candidates carry are numbers
    (the comparison is then consistent) they follow the descending order
    of carried score. *)
Theorem metadata_overrides_entry
    (roles skillsData : loc) (calculateScore : ScoringFunction)
    (coerce : JVal -> Number) (S : list Obj) :
  (forall k v, overrides S k "skill" = Some v ->
     obj_get "skill" (skillEntry calculateScore S k) = Some v) /\
  (forall k v, overrides S k "score" = Some v ->
     obj_get "score" (skillEntry calculateScore S k) = Some v /\
     score_carried calculateScore coerce S k = ToNumber coerce (Some v)) /\
  (forall a b,
     by_score coerce (skillEntry calculateScore S a) (skillEntry calculateScore S b)
     = Number_sub (score_carried calculateScore coerce S b)
                  (score_carried calculateScore coerce S a)) /\
  forall (s : Store) (R : list (Role * list string)) (us : list string),
    tables_at roles skillsData s R S -> us <> [] -> R <> [] ->
    exists s' resp i x y recs,
      recommendCareer roles skillsData calculateScore coerce {| skills := Some us |} s
      = (s', Ok resp) /\
      first_maximal us R i x /\
      In y R /\ role (fst y) = role (fst x) /\
      body_field "recommendedSkills" resp = Some (JArr (map JObj recs)) /\
      (forall e, In e recs ->
         exists k, In k (missing_of us (snd y)) /\ e = skillEntry calculateScore S k) /\
      ((forall k, In k (missing_of us (snd y)) ->
                  score_carried calculateScore coerce S k <> NaN) ->
       exists names,
         recs = map (skillEntry calculateScore S) (take 3 names) /\
         Permutation names (missing_of us (snd y)) /\
         StronglySorted
           (fun a b => Number_le (score_carried calculateScore coerce S b)
                                 (score_carried calculateScore coerce S a)) names).
Proof.
  split; [| split; [| split]].
  - intros k v Hov. rewrite skillEntry_field, Hov. reflexivity.
  - intros k v Hov. unfold score_carried. rewrite skillEntry_field, Hov.
    split; reflexivity.
  - intros a b. reflexivity.
  - intros s R us HT Hus HR.
    destruct (recommendCareer_result roles skillsData calculateScore coerce s R S us
                HT Hus HR)
      as (s' & i & x & y & _ & Hmax & Hy & Hname & _ & E).
    destruct (ranked_entries calculateScore coerce S us y) as [_ Hin].
    exists s'. eexists. exists i, x, y, (ranked calculateScore coerce S us y).
    split; [exact E |]. repeat (split; [assumption || reflexivity |]).
    intros Hnum.
    destruct (ranked_sorted calculateScore coerce S us y Hnum)
      as (names & E' & Hperm & Hsorted & _).
    exists names. auto.
Qed.

Lemma metadata_overrides_entry_witness :
  obj_get "skill" (skillEntry by_demand shadow_skills "SQL") = Some (JStr "Excel") /\
  obj_get "score" (skillEntry by_demand shadow_skills "SQL") = Some (JNum (Fin 2)) /\
  score_carried by_demand no_coercion shadow_skills "SQL" = Fin 2 /\
  exists s' resp names,
    recommendCareer 1%positive 2%positive by_demand no_coercion
      {| skills := Some ["Excel"] |} shadow_store = (s', Ok resp) /\
    body_field "recommendedSkills" resp
    = Some (JArr (map JObj (map (skillEntry by_demand shadow_skills) (take 3 names)))) /\
    Permutation names (missing_of ["Excel"] ["R"; "SQL"]) /\
    StronglySorted
      (fun a b => Number_le (score_carried by_demand no_coercion shadow_skills b)
                            (score_carried by_demand no_coercion shadow_skills a)) names.
Proof.
  destruct (metadata_overrides_entry 1%positive 2%positive by_demand no_coercion
              shadow_skills)
    as (Hskill & Hscore & _ & Hrun).
  split; [apply Hskill; reflexivity |].
  destruct (Hscore "SQL" (JNum (Fin 2)) eq_refl) as [H1 H2].
  split; [exact H1 |]. split; [exact H2 |].
  destruct (Hrun shadow_store shadow_roles ["Excel"] shadow_tables
              ltac:(discriminate) ltac:(discriminate))
    as (s' & resp & i & x & y & recs & E & _ & Hy & _ & Hrecs & _ & Hsorted).
  destruct Hy as [<- | []].
  destruct Hsorted as (names & -> & Hperm & Hs).
  { intros k Hk. apply In_missing_of in Hk as [Hk _]. simpl in Hk.
    repeat (destruct Hk as [<- | Hk]; [vm_compute; discriminate |]).
    destruct Hk. }
  exists s', resp, names. auto.
Defined.

(** In the sample table, the entry built for "SQL" carries the table's
    values: the name "Excel" and the score 2, where the scoring function
    gives 5. *)
Example shadowed_entry :
  skillEntry by_demand shadow_skills "SQL"
  = [("skill", JStr "Excel"); ("score", JNum (Fin 2)); ("name", JStr "SQL");
     ("demand", JNum (Fin 5))]
  /\ by_demand (List.find (name_is "SQL") shadow_skills) = Fin 5.
Proof. split; reflexivity. Qed.

(** ** The match percentage *)

(** C2, as the code has it.  On non-empty [userSkills] and a non-empty
    Roles table, [matchPercentage] is [Math.round] (nearest integer, a tie
    going up, which on these non-negative values is half away from zero)
    of the double obtained by dividing the matched role's match count by
    the number of its required skills and multiplying by 100, each of the
    two operations rounded to double precision.  When the role has a
    required skill this is an integer between 0 and 100; and, for a role of
    at most [2 ^ 44] required skills, it is the exact ratio rounded half
    away from zero whenever the exact percentage is not a half, or the role
    has fewer than 40 required skills. *)
Theorem percentage_is_rounded_double
    (roles skillsData : loc) (calculateScore : ScoringFunction)
    (coerce : JVal -> Number) (s : Store) (R : list (Role * list string))
    (S : list Obj) (us : list string) :
  tables_at roles skillsData s R S -> us <> [] -> R <> [] ->
  exists s' resp i x,
    recommendCareer roles skillsData calculateScore coerce {| skills := Some us |} s
    = (s', Ok resp) /\
    first_maximal us R i x /\
    body_field "matchPercentage" resp
    = Some (JNum (Math_round
                    (double_mul
                       (double_div (double_of_nat (matchCount_of us x))
                                   (double_of_nat (length (snd x))))
                       (DFin 100 0)))) /\
    (snd x <> [] ->
     exists z,
       body_field "matchPercentage" resp = Some (JNum (Fin (inject_Z z))) /\
       0 <= z <= 100 /\
       (Z.of_nat (length (snd x)) <= 2 ^ 44 ->
        (200 * Z.of_nat (matchCount_of us x) + Z.of_nat (length (snd x)))
          mod (2 * Z.of_nat (length (snd x))) <> 0
        \/ (length (snd x) < 40)%nat ->
        z = exact_percentage (matchCount_of us x) (length (snd x)))).
Proof.
  intros HT Hus HR.
  destruct (recommendCareer_result roles skillsData calculateScore coerce s R S us HT Hus HR)
    as (s' & i & x & y & _ & Hmax & _ & _ & _ & E).
  exists s'. eexists. exists i, x.
  split; [exact E |]. split; [exact Hmax |]. split; [reflexivity |].
  intros Hne.
  assert (Ht : (0 < length (snd x))%nat) by (destruct (snd x); [contradiction | simpl; lia]).
  assert (Hm : (matchCount_of us x <= length (snd x))%nat)
    by apply List.filter_length_le.
  destruct (matchPercentage_range _ _ Ht Hm) as (z & Ez & Hz).
  exists z. split; [| split; [exact Hz |]].
  - unfold body_field, res_json, res_status_json, result_body. simpl.
    unfold roleMatch. simpl. fold (matchCount_of us x). rewrite Ez. reflexivity.
  - intros Hbig Hcase.
    assert (Ee : matchPercentage (matchCount_of us x) (length (snd x))
                 = Fin (inject_Z (exact_percentage (matchCount_of us x) (length (snd x))))).
    { destruct Hcase as [Hhalf | Hsmall].
      - apply matchPercentage_exact; assumption.
      - apply matchPercentage_exact_small; lia. }
    rewrite Ez in Ee. injection Ee as Ee. exact Ee.
Qed.

Lemma percentage_is_rounded_double_witness :
  exists s' resp i x,
    recommendCareer 1%positive 2%positive by_demand no_coercion
      {| skills := Some ["Node"] |} example_store = (s', Ok resp) /\
    first_maximal ["Node"] example_roles i x /\
    body_field "matchPercentage" resp
    = Some (JNum (Math_round
                    (double_mul
                       (double_div (double_of_nat (matchCount_of ["Node"] x))
                                   (double_of_nat (length (snd x))))
                       (DFin 100 0)))) /\
    (snd x <> [] ->
     exists z,
       body_field "matchPercentage" resp = Some (JNum (Fin (inject_Z z))) /\
       0 <= z <= 100 /\
       (Z.of_nat (length (snd x)) <= 2 ^ 44 ->
        (200 * Z.of_nat (matchCount_of ["Node"] x) + Z.of_nat (length (snd x)))
          mod (2 * Z.of_nat (length (snd x))) <> 0
        \/ (length (snd x) < 40)%nat ->
        z = exact_percentage (matchCount_of ["Node"] x) (length (snd x)))).
Proof.
  apply (percentage_is_rounded_double 1%positive 2%positive by_demand no_coercion
           example_store example_roles example_skills ["Node"]).
  - exact example_tables.
  - discriminate.
  - discriminate.
Defined.

(** C2 as stated fails: for a role with 40 required skills of which the
    user has 23 the handler answers 57, while the exact percentage, 57.5,
    rounds half away from zero to 58. *)
Lemma percentage_not_exactly_rounded :
  exists s' resp,
    recommendCareer 1%positive 2%positive by_demand no_coercion
      {| skills := Some (map skill_no (seq 0 23)) |} forty_store = (s', Ok resp) /\
    body_field "matchPercentage" resp = Some (JNum (Fin (inject_Z 57))) /\
    Forall (fun x => matchCount_of (map skill_no (seq 0 23)) x = 23%nat
                     /\ length (snd x) = 40%nat) forty_roles /\
    exact_percentage 23 40 = 58.
Proof.
  destruct (recommendCareer 1%positive 2%positive by_demand no_coercion
              {| skills := Some (map skill_no (seq 0 23)) |} forty_store)
    as [s' o] eqn:E.
  apply (f_equal snd) in E. vm_compute in E. subst o.
  exists s'. eexists. split; [reflexivity |].
  split; [reflexivity |]. split; [| reflexivity].
  repeat constructor.
Qed.

(** * Further properties of the handler *)

(** ** The chosen role is determined *)

Lemma first_maximal_unique (us : list string) (R : list (Role * list string))
    (i j : nat) (x y : Role * list string) :
  first_maximal us R i x -> first_maximal us R j y -> i = j /\ x = y.
Proof.
  intros (Hi & Hmaxx & Hbx) (Hj & Hmaxy & Hby).
  assert (Hx : In x R) by (apply list_elem_of_In, list_elem_of_lookup; eauto).
  assert (Hy : In y R) by (apply list_elem_of_In, list_elem_of_lookup; eauto).
  destruct (Nat.lt_trichotomy i j) as [Hlt | [-> | Hlt]].
  - pose proof (Hby i x Hlt Hi). pose proof (Hmaxx y Hy). lia.
  - split; [reflexivity | congruence].
  - pose proof (Hbx j y Hlt Hj). pose proof (Hmaxy x Hx). lia.
Qed.

Lemma head_first_maximal (us : list string) (R : list (Role * list string))
    (m : RoleMatch) :
  stable_sort by_matchCount (map (roleMatch us) R) !! 0%nat = Some m ->
  exists i x, first_maximal us R i x /\ m = roleMatch us x.
Proof.
  intros Em. destruct (by_matchCount_head _ _ Em) as (Hmax & i & Hi & Hbefore).
  apply map_lookup_Some in Hi as (x & Hi & <-).
  exists i, x. split; [| reflexivity]. split; [exact Hi |]. split.
  - intros z Hz. apply (Hmax (roleMatch us z)). apply List.in_map. exact Hz.
  - intros j z Hj Hz. apply (Hbefore j (roleMatch us z) Hj).
    clear - Hz. revert j Hz. induction R as [| a R IH]; intros [| j] Hz; simpl in *;
      try discriminate.
    + injection Hz as ->. reflexivity.
    + apply IH. exact Hz.
Qed.

Section Chosen.

Variable roles : loc.
Variable skillsData : loc.
Variable calculateScore : ScoringFunction.
Variable coerce : JVal -> Number.

(** The answer, given which role is the first with the largest count: the
    required skills are taken from the first role [y] that carries its
    name. *)
Lemma answer_at R S us i x :
  first_maximal us R i x ->
  exists y,
    In y R /\ role (fst y) = role (fst x) /\
    (NoDup (role_names R) \/ i = 0%nat -> y = x) /\
    answer calculateScore coerce us R S
    = Ok (res_json (result_body (roleMatch us x)
                      (ranked calculateScore coerce S us y))).
Proof.
  intros Hfm. unfold answer.
  assert (Hx : In x R).
  { destruct Hfm as (Hi & _). apply list_elem_of_In, list_elem_of_lookup. eauto. }
  destruct (stable_sort by_matchCount (map (roleMatch us) R) !! 0%nat) as [m |] eqn:Em.
  2: { apply lookup_ge_None in Em. rewrite stable_sort_length, length_map in Em.
       destruct R; [contradiction | simpl in Em; lia]. }
  destruct (head_first_maximal us R m Em) as (i' & x' & Hfm' & ->).
  destruct (first_maximal_unique us R i' i x' x Hfm' Hfm) as [-> ->].
  destruct (find_same_role us R x Hx) as (y & Ey & Hy & Hname & Huniq).
  rewrite Ey. exists y. repeat split; auto.
  intros [Hnd | ->]; [auto |].
  destruct Hfm as (Hi & _). destruct R as [| x0 R']; [discriminate |].
  injection Hi as ->. simpl in Ey. unfold same_role in Ey. simpl in Ey.
  rewrite String.eqb_refl in Ey. congruence.
Qed.

Lemma recommendCareer_at s R S us i x :
  tables_at roles skillsData s R S -> us <> [] -> first_maximal us R i x ->
  exists s' y,
    s ⊆ s' /\ In y R /\ role (fst y) = role (fst x) /\
    (NoDup (role_names R) \/ i = 0%nat -> y = x) /\
    recommendCareer roles skillsData calculateScore coerce {| skills := Some us |} s
    = (s', Ok (res_json (result_body (roleMatch us x)
                           (ranked calculateScore coerce S us y)))).
Proof.
  intros HT Hus Hfm.
  destruct (recommendCareer_run roles skillsData calculateScore coerce s R S us HT Hus s)
    as (s' & Hs' & E); [reflexivity |].
  destruct (answer_at R S us i x Hfm) as (y & Hy & Hname & Huniq & Ea).
  rewrite Ea in E. exists s', y. repeat split; auto.
Qed.

End Chosen.

(** ** The percentage at the two ends *)

Lemma matchPercentage_none (t : nat) : (0 < t)%nat -> matchPercentage 0 t = Fin 0.
Proof.
  intros Ht. unfold matchPercentage, double_of_nat, double_div.
  replace (Z.of_nat t =? 0) with false by (symmetry; apply Z.eqb_neq; lia).
  reflexivity.
Qed.

Lemma round_b64_pow2 (c d k : Z) :
  0 < d -> 0 < c -> 2 ^ k <= c < 2 ^ (k + 1) -> 0 <= k < 52 ->
  round_b64 (c * d) d = DFin (c * 2 ^ (52 - k)) (k - 52).
Proof.
  intros Hd Hc Hck Hk. unfold round_b64.
  replace (c * d =? 0) with false by (symmetry; apply Z.eqb_neq; nia).
  assert (Hlog : floor_log2_ratio (c * d) d = k).
  { unfold floor_log2_ratio.
    assert (Hl1 : Z.log2 d <= Z.log2 (c * d)) by (apply Z.log2_le_mono; nia).
    assert (Hl2 : Z.log2 (c * d) <= Z.log2 c + Z.log2 d + 1)
      by (apply Z.log2_mul_above; lia).
    assert (Hlc : Z.log2 c = k) by (apply Z.log2_unique; lia).
    assert (Hp : 0 < 2 ^ k) by (apply Z.pow_pos_nonneg; lia).
    set (j := Z.log2 (c * d) - Z.log2 d) in *.
    assert (Hj : j = k \/ j = k + 1) by (pose proof (Z.log2_mul_below c d Hc Hd); lia).
    replace (0 <=? j) with true by (symmetry; apply Z.leb_le; lia).
    destruct Hj as [-> | ->].
    - replace (d * 2 ^ k <=? c * d) with true by (symmetry; apply Z.leb_le; nia).
      reflexivity.
    - replace (d * 2 ^ (k + 1) <=? c * d) with false by (symmetry; apply Z.leb_gt; nia).
      lia. }
  rewrite Hlog. replace (Z.max (k - 52) (-1074)) with (k - 52) by lia.
  replace (0 <=? k - 52) with false by (symmetry; apply Z.leb_gt; lia).
  replace (- (k - 52)) with (52 - k) by lia.
  assert (Hp : 0 < 2 ^ (52 - k)) by (apply Z.pow_pos_nonneg; lia).
  assert (Hr : rne (c * d * 2 ^ (52 - k)) d = c * 2 ^ (52 - k)).
  { unfold rne. replace (c * d * 2 ^ (52 - k)) with (c * 2 ^ (52 - k) * d) by ring.
    rewrite Z.div_mul, Z.mod_mul by lia.
    replace (2 * 0 <? d) with true by (symmetry; apply Z.ltb_lt; lia). reflexivity. }
  rewrite Hr. unfold overflows.
  replace (0 <=? k - 52) with false by (symmetry; apply Z.leb_gt; lia).
  replace (2 ^ (1024 - (k - 52)) <=? c * 2 ^ (52 - k)) with false; [reflexivity |].
  symmetry. apply Z.leb_gt.
  replace (1024 - (k - 52)) with ((k + 1) + (1023 - k) + (52 - k)) by lia.
  rewrite (Z.pow_add_r 2 (k + 1 + (1023 - k)) (52 - k)) by lia.
  rewrite (Z.pow_add_r 2 (k + 1) (1023 - k)) by lia.
  assert (HB : 1 <= 2 ^ (1023 - k)) by (apply Z.lt_pred_le, Z.pow_pos_nonneg; lia).
  destruct Hck as [_ Hck].
  remember (2 ^ (52 - k)) as P. remember (2 ^ (1023 - k)) as B.
  remember (2 ^ (k + 1)) as A.
  assert (0 < A) by lia.
  assert (c * P < A * P) by nia. assert (A * P <= A * B * P) by nia. lia.
Qed.

Lemma matchPercentage_all (t : nat) :
  (0 < t)%nat -> matchPercentage t t = Fin (inject_Z 100).
Proof.
  intros Ht. unfold matchPercentage, double_of_nat, double_div.
  replace (Z.of_nat t =? 0) with false by (symmetry; apply Z.eqb_neq; lia).
  replace (Z.max (0 - 0) 0) with 0 by reflexivity. rewrite !Z.mul_1_r.
  pose proof (round_b64_pow2 1 (Z.of_nat t) 0 ltac:(lia) ltac:(lia) ltac:(simpl; lia)
                ltac:(lia)) as E1.
  rewrite Z.mul_1_l in E1. rewrite E1. unfold double_mul.
  replace (Z.max (0 - 52 + 0) 0) with 0 by reflexivity.
  replace (Z.max (- (0 - 52 + 0)) 0) with 52 by reflexivity.
  rewrite Z.mul_1_r.
  pose proof (round_b64_pow2 100 (2 ^ 52) 6 ltac:(reflexivity) ltac:(lia)
                ltac:(simpl; lia) ltac:(lia)) as E2.
  replace (1 * 2 ^ (52 - 0) * 100) with (100 * 2 ^ 52) by reflexivity.
  rewrite E2. reflexivity.
Qed.

Lemma filter_all {A} (p : A -> bool) (l : list A) :
  (forall a, In a l -> p a = true) -> List.filter p l = l.
Proof.
  induction l as [| a l IH]; intros H; simpl; [reflexivity |].
  rewrite (H a (or_introl eq_refl)), IH; [reflexivity |].
  intros b Hb. apply H. right. exact Hb.
Qed.

Lemma filter_none {A} (p : A -> bool) (l : list A) :
  (forall a, In a l -> p a = false) -> List.filter p l = [].
Proof.
  induction l as [| a l IH]; intros H; simpl; [reflexivity |].
  rewrite (H a (or_introl eq_refl)), IH; [reflexivity |].
  intros b Hb. apply H. right. exact Hb.
Qed.

Lemma includes_false (us : list string) (k : string) :
  ~ In k us -> includes us k = false.
Proof.
  intros H. destruct (includes us k) eqn:E; [| reflexivity].
  exfalso. apply H, includes_In, E.
Qed.

(** ** Edges of the tables *)

(** X1. With skills given and an empty Roles table there is no answer: the
    role selection returns [undefined] (the first element of an empty
    array), the lookup by name returns [undefined] without running its
    callback, and reading [requiredSkills] of that [undefined] throws. *)
Theorem empty_roles_throw
    (roles skillsData : loc) (calculateScore : ScoringFunction)
    (coerce : JVal -> Number) (s : Store) (S : list Obj) (us : list string) :
  tables_at roles skillsData s [] S -> us <> [] ->
  exists s1,
    matchedRole roles us s = (s1, Ok None) /\
    targetRole roles None s1 = (s1, Ok None) /\
    missingSkills skillsData calculateScore us None s1 = (s1, Throw) /\
    snd (recommendCareer roles skillsData calculateScore coerce {| skills := Some us |} s)
    = Throw.
Proof.
  intros HT Hus.
  destruct (matchedRole_run roles skillsData s [] S us s HT (reflexivity s))
    as (s1 & Hs1 & E1).
  exists s1. split; [exact E1 |].
  split; [exact (targetRole_run_empty roles skillsData s S s1 HT Hs1) |].
  split; [reflexivity |].
  destruct (recommendCareer_run roles skillsData calculateScore coerce s [] S us HT Hus s)
    as (s' & _ & E); [reflexivity |].
  rewrite E. reflexivity.
Qed.

Lemma empty_roles_throw_witness :
  exists s1,
    matchedRole 1%positive ["Node"] roleless_store = (s1, Ok None) /\
    targetRole 1%positive None s1 = (s1, Ok None) /\
    missingSkills 2%positive by_demand ["Node"] None s1 = (s1, Throw) /\
    snd (recommendCareer 1%positive 2%positive by_demand no_coercion
           {| skills := Some ["Node"] |} roleless_store)
    = Throw.
Proof.
  apply (empty_roles_throw 1%positive 2%positive by_demand no_coercion
           roleless_store example_skills ["Node"]).
  - repeat split; try (vm_compute; reflexivity). repeat constructor.
  - discriminate.
Defined.

(** X2. When the chosen role has no required skills the answer carries NaN
    as [matchPercentage] (0 divided by 0; [res.json] writes it as [null])
    and an empty [recommendedSkills]. *)
Theorem role_without_skills
    (roles skillsData : loc) (calculateScore : ScoringFunction)
    (coerce : JVal -> Number) (s : Store) (R : list (Role * list string))
    (S : list Obj) (us : list string) (i : nat) (x : Role * list string) :
  tables_at roles skillsData s R S -> us <> [] ->
  first_maximal us R i x -> snd x = [] ->
  snd (recommendCareer roles skillsData calculateScore coerce {| skills := Some us |} s)
  = Ok {| status := 200;
          body := JObj [("role", JStr (role (fst x)));
                        ("matchPercentage", JNum NaN);
                        ("recommendedSkills", JArr [])] |}.
Proof.
  intros HT Hus Hfm Hx.
  assert (Hi : i = 0%nat).
  { destruct Hfm as (Hi & _ & Hb). destruct i as [| i]; [reflexivity |]. exfalso.
    destruct R as [| z R']; [discriminate |].
    specialize (Hb 0%nat z ltac:(lia) eq_refl).
    unfold matchCount_of in Hb. rewrite Hx in Hb. simpl in Hb. lia. }
  destruct (recommendCareer_at roles skillsData calculateScore coerce s R S us i x HT Hus Hfm)
    as (s' & y & _ & _ & _ & Hy & E).
  rewrite (Hy (or_intror Hi)) in E. rewrite E.
  unfold ranked, result_body, roleMatch, res_json, res_status_json. rewrite Hx.
  reflexivity.
Qed.

Lemma role_without_skills_witness :
  snd (recommendCareer 1%positive 2%positive by_demand no_coercion
         {| skills := Some ["Python"] |} idle_store)
  = Ok {| status := 200;
          body := JObj [("role", JStr "Intern");
                        ("matchPercentage", JNum NaN);
                        ("recommendedSkills", JArr [])] |}.
Proof.
  apply (role_without_skills 1%positive 2%positive by_demand no_coercion
           idle_store idle_roles example_skills ["Python"] 0
           ({| role := "Intern"; requiredSkills := 3%positive |}, [])).
  - repeat split; try (vm_compute; reflexivity). repeat constructor.
  - discriminate.
  - split; [reflexivity |]. split.
    + intros z [<- | [<- | []]]; vm_compute; lia.
    + intros j z Hj. lia.
  - reflexivity.
Defined.

(** X3. When the user has every required skill of the chosen role (role
    names being unique, and the role requiring something), the answer is
    100 percent and no recommendation. *)
Theorem full_match_is_100
    (roles skillsData : loc) (calculateScore : ScoringFunction)
    (coerce : JVal -> Number) (s : Store) (R : list (Role * list string))
    (S : list Obj) (us : list string) (i : nat) (x : Role * list string) :
  tables_at roles skillsData s R S -> us <> [] ->
  first_maximal us R i x -> NoDup (role_names R) ->
  snd x <> [] -> (forall k, In k (snd x) -> In k us) ->
  snd (recommendCareer roles skillsData calculateScore coerce {| skills := Some us |} s)
  = Ok {| status := 200;
          body := JObj [("role", JStr (role (fst x)));
                        ("matchPercentage", JNum (Fin (inject_Z 100)));
                        ("recommendedSkills", JArr [])] |}.
Proof.
  intros HT Hus Hfm Hnd Hne Hall.
  destruct (recommendCareer_at roles skillsData calculateScore coerce s R S us i x HT Hus Hfm)
    as (s' & y & _ & _ & _ & Hy & E).
  rewrite (Hy (or_introl Hnd)) in E. rewrite E.
  unfold ranked, result_body, roleMatch, res_json, res_status_json, missing_of. simpl.
  rewrite (filter_all (includes us) (snd x))
    by (intros k Hk; apply includes_In, Hall, Hk).
  rewrite (filter_none (fun skill => negb (includes us skill)) (snd x)).
  2: { intros k Hk. rewrite (proj2 (includes_In us k) (Hall k Hk)). reflexivity. }
  rewrite matchPercentage_all by (destruct (snd x); [contradiction | simpl; lia]).
  reflexivity.
Qed.

Lemma full_match_is_100_witness :
  snd (recommendCareer 1%positive 2%positive by_demand no_coercion
         {| skills := Some ["CSS"; "React"] |} example_store)
  = Ok {| status := 200;
          body := JObj [("role", JStr "Frontend Developer");
                        ("matchPercentage", JNum (Fin (inject_Z 100)));
                        ("recommendedSkills", JArr [])] |}.
Proof.
  apply (full_match_is_100 1%positive 2%positive by_demand no_coercion
           example_store example_roles example_skills ["CSS"; "React"] 1
           ({| role := "Frontend Developer"; requiredSkills := 4%positive |},
            ["React"; "CSS"])).
  - exact example_tables.
  - discriminate.
  - split; [reflexivity |]. split.
    + intros z [<- | [<- | []]]; vm_compute; lia.
    + intros [| j] z Hj Hz; [| lia]. injection Hz as Hz. subst z. vm_compute. lia.
  - apply NoDup_ListNoDup. repeat constructor; simpl; intuition discriminate.
  - discriminate.
  - intros k [<- | [<- | []]]; simpl; auto.
Defined.

(** The returned entries when every required skill of the role is missing. *)
Lemma ranked_of_all (calculateScore : ScoringFunction) (coerce : JVal -> Number)
    (S : list Obj) (us : list string) (x : Role * list string) :
  missing_of us (snd x) = snd x ->
  length (ranked calculateScore coerce S us x) = Nat.min 3 (length (snd x)) /\
  (forall e, In e (ranked calculateScore coerce S us x) ->
     exists k, In k (snd x) /\ e = skillEntry calculateScore S k) /\
  ((forall k, In k (snd x) -> score_carried calculateScore coerce S k <> NaN) ->
   exists names,
     ranked calculateScore coerce S us x
     = map (skillEntry calculateScore S) (take 3 names) /\
     Permutation names (snd x) /\
     StronglySorted
       (fun a b => Number_le (score_carried calculateScore coerce S b)
                             (score_carried calculateScore coerce S a)) names).
Proof.
  intros Hm.
  destruct (ranked_entries calculateScore coerce S us x) as [Hlen Hin].
  rewrite Hm in Hlen. split; [exact Hlen |]. split.
  - intros e He. destruct (Hin e He) as (k & Hk & ->). rewrite Hm in Hk. eauto.
  - intros Hnum.
    destruct (ranked_sorted calculateScore coerce S us x) as (names & E & Hperm & Hs & _).
    { rewrite Hm. exact Hnum. }
    rewrite Hm in Hperm. eauto.
Qed.

(** X4. When no role requires any of the user's skills, the first role of
    the table is the answer, with 0 percent (the role requiring
    something); the recommendations are entries built for required skills
    of that role, as many as it requires and three at most; and when the
    scores these skills carry are numbers, they are the first three of all
    its required skills in descending order of carried score. *)
Theorem no_overlap_first_role
    (roles skillsData : loc) (calculateScore : ScoringFunction)
    (coerce : JVal -> Number) (s : Store) (x : Role * list string)
    (R' : list (Role * list string)) (S : list Obj) (us : list string) :
  tables_at roles skillsData s (x :: R') S -> us <> [] ->
  (forall z k, In z (x :: R') -> In k (snd z) -> ~ In k us) ->
  snd x <> [] ->
  exists recs,
    snd (recommendCareer roles skillsData calculateScore coerce {| skills := Some us |} s)
    = Ok {| status := 200;
            body := JObj [("role", JStr (role (fst x)));
                          ("matchPercentage", JNum (Fin 0));
                          ("recommendedSkills", JArr (map JObj recs))] |} /\
    length recs = Nat.min 3 (length (snd x)) /\
    (forall e, In e recs ->
       exists k, In k (snd x) /\ e = skillEntry calculateScore S k) /\
    ((forall k, In k (snd x) -> score_carried calculateScore coerce S k <> NaN) ->
     exists names,
       recs = map (skillEntry calculateScore S) (take 3 names) /\
       Permutation names (snd x) /\
       StronglySorted
         (fun a b => Number_le (score_carried calculateScore coerce S b)
                               (score_carried calculateScore coerce S a)) names).
Proof.
  intros HT Hus Hno Hne.
  assert (Hzero : forall z, In z (x :: R') -> matchCount_of us z = 0%nat).
  { intros z Hz. unfold matchCount_of. rewrite filter_none; [reflexivity |].
    intros k Hk. apply includes_false. exact (Hno z k Hz Hk). }
  assert (Hfm : first_maximal us (x :: R') 0 x).
  { split; [reflexivity |]. split.
    - intros z Hz. rewrite (Hzero z Hz). lia.
    - intros j z Hj. lia. }
  assert (Hm : missing_of us (snd x) = snd x).
  { unfold missing_of. apply filter_all. intros k Hk.
    rewrite includes_false; [reflexivity |]. exact (Hno x k (or_introl eq_refl) Hk). }
  destruct (recommendCareer_at roles skillsData calculateScore coerce s (x :: R') S us
              0 x HT Hus Hfm)
    as (s' & y & _ & _ & _ & Hy & E).
  rewrite (Hy (or_intror eq_refl)) in E.
  exists (ranked calculateScore coerce S us x). split.
  - rewrite E. unfold result_body, roleMatch, res_json, res_status_json. simpl.
    fold (matchCount_of us x). rewrite (Hzero x (or_introl eq_refl)).
    rewrite matchPercentage_none by (destruct (snd x); [contradiction | simpl; lia]).
    reflexivity.
  - exact (ranked_of_all calculateScore coerce S us x Hm).
Qed.

Lemma no_overlap_first_role_witness :
  exists recs names,
    snd (recommendCareer 1%positive 2%positive by_demand no_coercion
           {| skills := Some ["Python"] |} example_store)
    = Ok {| status := 200;
            body := JObj [("role", JStr "Backend Developer");
                          ("matchPercentage", JNum (Fin 0));
                          ("recommendedSkills", JArr (map JObj recs))] |} /\
    length recs = 3%nat /\
    recs = map (skillEntry by_demand example_skills) (take 3 names) /\
    Permutation names ["Node"; "SQL"; "Docker"] /\
    StronglySorted
      (fun a b => Number_le (score_carried by_demand no_coercion example_skills b)
                            (score_carried by_demand no_coercion example_skills a)) names.
Proof.
  destruct (no_overlap_first_role 1%positive 2%positive by_demand no_coercion
              example_store
              ({| role := "Backend Developer"; requiredSkills := 3%positive |},
               ["Node"; "SQL"; "Docker"])
              [({| role := "Frontend Developer"; requiredSkills := 4%positive |},
                ["React"; "CSS"])]
              example_skills ["Python"])
    as (recs & E & Hlen & _ & Hsorted).
  - exact example_tables.
  - discriminate.
  - intros z k [<- | [<- | []]] Hk [Hu | []]; simpl in Hk;
      repeat (destruct Hk as [<- | Hk]; [discriminate |]); destruct Hk.
  - discriminate.
  - destruct Hsorted as (names & Erecs & Hperm & Hs).
    { intros k Hk. simpl in Hk.
      repeat (destruct Hk as [<- | Hk]; [vm_compute; discriminate |]). destruct Hk. }
    exists recs, names. auto.
Defined.

(** ** How many, and which, skills are recommended *)

(** X5. The number of recommended entries is the number of missing skills
    of the looked-up role, capped at three; and when at most three skills
    are missing, each of them is recommended, none dropped. *)
Theorem recommended_count
    (roles skillsData : loc) (calculateScore : ScoringFunction)
    (coerce : JVal -> Number) (s : Store) (R : list (Role * list string))
    (S : list Obj) (us : list string) :
  tables_at roles skillsData s R S -> us <> [] -> R <> [] ->
  exists s' resp i x y recs,
    recommendCareer roles skillsData calculateScore coerce {| skills := Some us |} s
    = (s', Ok resp) /\
    first_maximal us R i x /\
    In y R /\ role (fst y) = role (fst x) /\
    body_field "recommendedSkills" resp = Some (JArr (map JObj recs)) /\
    length recs = Nat.min 3 (length (missing_of us (snd y))) /\
    ((length (missing_of us (snd y)) <= 3)%nat ->
     Permutation recs (map (skillEntry calculateScore S) (missing_of us (snd y)))).
Proof.
  intros HT Hus HR.
  destruct (recommendCareer_result roles skillsData calculateScore coerce s R S us HT Hus HR)
    as (s' & i & x & y & _ & Hmax & Hy & Hname & _ & E).
  exists s'. eexists. exists i, x, y, (ranked calculateScore coerce S us y).
  split; [exact E |]. repeat (split; [assumption || reflexivity |]).
  unfold ranked. split.
  - rewrite length_take, stable_sort_length, length_map. reflexivity.
  - intros Hle. rewrite take_ge.
    + apply stable_sort_perm.
    + rewrite stable_sort_length, length_map. exact Hle.
Qed.

Lemma recommended_count_witness :
  exists s' resp i x y recs,
    recommendCareer 1%positive 2%positive by_demand no_coercion
      {| skills := Some ["Node"] |} example_store = (s', Ok resp) /\
    first_maximal ["Node"] example_roles i x /\
    In y example_roles /\ role (fst y) = role (fst x) /\
    body_field "recommendedSkills" resp = Some (JArr (map JObj recs)) /\
    length recs = Nat.min 3 (length (missing_of ["Node"] (snd y))) /\
    ((length (missing_of ["Node"] (snd y)) <= 3)%nat ->
     Permutation recs (map (skillEntry by_demand example_skills)
                         (missing_of ["Node"] (snd y)))).
Proof.
  apply (recommended_count 1%positive 2%positive by_demand no_coercion
           example_store example_roles example_skills ["Node"]).
  - exact example_tables.
  - discriminate.
  - discriminate.
Defined.

(** X6. Only membership in [userSkills] matters: two non-empty skill lists
    with the same members, in whatever order and with whatever
    repetitions, get the same answer. *)
Theorem userSkills_as_a_set
    (roles skillsData : loc) (calculateScore : ScoringFunction)
    (coerce : JVal -> Number) (s : Store) (R : list (Role * list string))
    (S : list Obj) (us1 us2 : list string) :
  tables_at roles skillsData s R S -> us1 <> [] -> us2 <> [] ->
  (forall k, In k us1 <-> In k us2) ->
  snd (recommendCareer roles skillsData calculateScore coerce {| skills := Some us1 |} s)
  = snd (recommendCareer roles skillsData calculateScore coerce {| skills := Some us2 |} s).
Proof.
  intros HT H1 H2 Hsame.
  destruct (recommendCareer_run roles skillsData calculateScore coerce s R S us1 HT H1 s)
    as (s1 & _ & E1); [reflexivity |].
  destruct (recommendCareer_run roles skillsData calculateScore coerce s R S us2 HT H2 s)
    as (s2 & _ & E2); [reflexivity |].
  rewrite E1, E2. simpl.
  assert (Hinc : forall k, includes us1 k = includes us2 k).
  { intros k. destruct (includes us1 k) eqn:Ea, (includes us2 k) eqn:Eb; try reflexivity.
    - apply includes_In, Hsame, includes_In in Ea. congruence.
    - apply includes_In, Hsame, includes_In in Eb. congruence. }
  assert (Hrm : map (roleMatch us1) R = map (roleMatch us2) R).
  { apply List.map_ext. intros z. unfold roleMatch.
    rewrite (List.filter_ext _ _ Hinc). reflexivity. }
  assert (Hmiss : forall ss, missing_of us1 ss = missing_of us2 ss).
  { intros ss. unfold missing_of. apply List.filter_ext. intros k.
    rewrite Hinc. reflexivity. }
  unfold answer. rewrite Hrm.
  destruct (stable_sort by_matchCount (map (roleMatch us2) R) !! 0%nat); [| reflexivity].
  destruct (List.find _ R); [| reflexivity]. rewrite Hmiss. reflexivity.
Qed.

Lemma userSkills_as_a_set_witness :
  snd (recommendCareer 1%positive 2%positive by_demand no_coercion
         {| skills := Some ["Node"; "CSS"] |} example_store)
  = snd (recommendCareer 1%positive 2%positive by_demand no_coercion
           {| skills := Some ["CSS"; "Node"; "CSS"] |} example_store).
Proof.
  apply (userSkills_as_a_set 1%positive 2%positive by_demand no_coercion
           example_store example_roles example_skills
           ["Node"; "CSS"] ["CSS"; "Node"; "CSS"]).
  - exact example_tables.
  - discriminate.
  - discriminate.
  - intros k. simpl. tauto.
Defined.

(** X7. Every recommended entry has a [skill] and a [score] property, and
    carries every field of the Skills-table entry found for its skill,
    with the table's value. *)
Theorem metadata_is_copied
    (roles skillsData : loc) (calculateScore : ScoringFunction)
    (coerce : JVal -> Number) (s : Store) (R : list (Role * list string))
    (S : list Obj) (us : list string) :
  tables_at roles skillsData s R S -> us <> [] -> R <> [] ->
  exists s' resp recs,
    recommendCareer roles skillsData calculateScore coerce {| skills := Some us |} s
    = (s', Ok resp) /\
    body_field "recommendedSkills" resp = Some (JArr (map JObj recs)) /\
    forall e, In e recs ->
      is_Some (obj_get "skill" e) /\ is_Some (obj_get "score" e) /\
      exists k, e = skillEntry calculateScore S k /\
                forall f v, overrides S k f = Some v -> obj_get f e = Some v.
Proof.
  intros HT Hus HR.
  destruct (recommendCareer_result roles skillsData calculateScore coerce s R S us HT Hus HR)
    as (s' & i & x & y & _ & _ & _ & _ & _ & E).
  exists s'. eexists. exists (ranked calculateScore coerce S us y).
  split; [exact E |]. split; [reflexivity |].
  intros e He. unfold ranked in He. apply In_take in He.
  apply (Permutation_in _ (stable_sort_perm _ _)) in He.
  apply List.in_map_iff in He as (k & <- & _).
  split; [| split].
  - rewrite skillEntry_field. destruct (overrides S k "skill"); eauto.
  - rewrite skillEntry_field. destruct (overrides S k "score"); eauto.
  - exists k. split; [reflexivity |]. intros f v Hov.
    rewrite skillEntry_field, Hov. reflexivity.
Qed.

Lemma metadata_is_copied_witness :
  exists s' resp recs,
    recommendCareer 1%positive 2%positive by_demand no_coercion
      {| skills := Some ["Node"] |} example_store = (s', Ok resp) /\
    body_field "recommendedSkills" resp = Some (JArr (map JObj recs)) /\
    forall e, In e recs ->
      is_Some (obj_get "skill" e) /\ is_Some (obj_get "score" e) /\
      exists k, e = skillEntry by_demand example_skills k /\
                forall f v, overrides example_skills k f = Some v -> obj_get f e = Some v.
Proof.
  apply (metadata_is_copied 1%positive 2%positive by_demand no_coercion
           example_store example_roles example_skills ["Node"]).
  - exact example_tables.
  - discriminate.
  - discriminate.
Defined.

Lemma StronglySorted_take_drop {A} (Rel : A -> A -> Prop) (n : nat) (l : list A) :
  StronglySorted Rel l ->
  forall a b, In a (take n l) -> In b (drop n l) -> Rel a b.
Proof.
  intros Hs. revert n. induction Hs as [| x l Hs IH Hx]; intros n a b Ha Hb.
  - destruct n; simpl in Ha; contradiction.
  - destruct n as [| n]; simpl in *; [contradiction |].
    destruct Ha as [<- | Ha].
    + rewrite List.Forall_forall in Hx. apply Hx.
      rewrite <- (take_drop n l). apply List.in_or_app. right. exact Hb.
    + exact (IH n a b Ha Hb).
Qed.

(** X8. Provided the scores the candidate entries carry are numbers, the
    recommended skills are the best ranked: the missing skills of the
    looked-up role split into the recommended ones and the rest, and no
    skill of the rest carries a larger score than a recommended one. *)
Theorem recommended_are_best
    (roles skillsData : loc) (calculateScore : ScoringFunction)
    (coerce : JVal -> Number) (s : Store) (R : list (Role * list string))
    (S : list Obj) (us : list string) :
  tables_at roles skillsData s R S -> us <> [] -> R <> [] ->
  exists s' resp i x y,
    recommendCareer roles skillsData calculateScore coerce {| skills := Some us |} s
    = (s', Ok resp) /\
    first_maximal us R i x /\
    In y R /\ role (fst y) = role (fst x) /\
    ((forall k, In k (missing_of us (snd y)) ->
                score_carried calculateScore coerce S k <> NaN) ->
     exists names rest,
       body_field "recommendedSkills" resp
       = Some (JArr (map JObj (map (skillEntry calculateScore S) names))) /\
       Permutation (names ++ rest) (missing_of us (snd y)) /\
       forall a b, In a names -> In b rest ->
         Number_le (score_carried calculateScore coerce S b)
                   (score_carried calculateScore coerce S a)).
Proof.
  intros HT Hus HR.
  destruct (recommendCareer_result roles skillsData calculateScore coerce s R S us HT Hus HR)
    as (s' & i & x & y & _ & Hmax & Hy & Hname & _ & E).
  exists s'. eexists. exists i, x, y.
  split; [exact E |]. repeat (split; [assumption |]).
  intros Hnum.
  destruct (ranked_sorted calculateScore coerce S us y Hnum)
    as (sorted & Er & Hperm & Hsorted & _).
  exists (take 3 sorted), (drop 3 sorted).
  split; [rewrite <- Er; reflexivity |].
  split; [rewrite take_drop; exact Hperm |].
  intros a b Ha Hb. exact (StronglySorted_take_drop _ 3 sorted Hsorted a b Ha Hb).
Qed.

Lemma recommended_are_best_witness :
  exists s' resp names rest,
    recommendCareer 1%positive 2%positive by_demand no_coercion
      {| skills := Some ["Node"] |} example_store = (s', Ok resp) /\
    body_field "recommendedSkills" resp
    = Some (JArr (map JObj (map (skillEntry by_demand example_skills) names))) /\
    forall a b, In a names -> In b rest ->
      Number_le (score_carried by_demand no_coercion example_skills b)
                (score_carried by_demand no_coercion example_skills a).
Proof.
  destruct (recommended_are_best 1%positive 2%positive by_demand no_coercion
              example_store example_roles example_skills ["Node"]
              example_tables ltac:(discriminate) ltac:(discriminate))
    as (s' & resp & i & x & y & E & _ & Hy & _ & Hbest).
  destruct Hbest as (names & rest & Hrecs & _ & Hle).
  { intros k Hk. apply In_missing_of in Hk as [Hk _].
    destruct Hy as [<- | [<- | []]]; simpl in Hk;
      repeat (destruct Hk as [<- | Hk]; [vm_compute; discriminate |]);
      destruct Hk. }
  exists s', resp, names, rest. auto.
Defined.

(** X9. When no role lists a required skill twice, no skill gets two
    entries in [recommendedSkills]; and when none of the recommended
    skills has a Skills-table entry with a [skill] field of its own, no
    name is shown twice.  (With such a field two entries can show the same
    name.) *)
Theorem no_skill_recommended_twice
    (roles skillsData : loc) (calculateScore : ScoringFunction)
    (coerce : JVal -> Number) (s : Store) (R : list (Role * list string))
    (S : list Obj) (us : list string) :
  tables_at roles skillsData s R S -> us <> [] -> R <> [] ->
  (forall z, In z R -> NoDup (snd z)) ->
  exists s' resp names,
    recommendCareer roles skillsData calculateScore coerce {| skills := Some us |} s
    = (s', Ok resp) /\
    body_field "recommendedSkills" resp
    = Some (JArr (map JObj (map (skillEntry calculateScore S) names))) /\
    NoDup names /\
    ((forall k, In k names -> overrides S k "skill" = None) ->
     NoDup (map (obj_get "skill") (map (skillEntry calculateScore S) names))).
Proof.
  intros HT Hus HR Hnd.
  destruct (recommendCareer_result roles skillsData calculateScore coerce s R S us HT Hus HR)
    as (s' & i & x & y & _ & _ & Hy & _ & _ & E).
  rewrite ranked_names in E.
  exists s'. eexists. eexists. split; [exact E |]. split; [reflexivity |].
  assert (Hnames : NoDup (take 3 (stable_sort
            (fun a b => Number_sub (score_carried calculateScore coerce S b)
                                   (score_carried calculateScore coerce S a))
            (missing_of us (snd y))))).
  { eapply sublist_NoDup; [| apply sublist_take].
    rewrite stable_sort_perm. unfold missing_of.
    apply NoDup_ListNoDup, List.NoDup_filter, NoDup_ListNoDup, Hnd, Hy. }
  split; [exact Hnames |].
  intros Hown. rewrite List.map_map.
  rewrite (List.map_ext_in _ (fun k => Some (JStr k))).
  - assert (Hinj : Inj (=) (=) (fun k : string => Some (JStr k)))
      by (intros a b Hab; congruence).
    exact (NoDup_fmap_2 (fun k : string => Some (JStr k)) _ Hnames).
  - intros k Hk. rewrite skillEntry_field, (Hown k Hk). reflexivity.
Qed.

Lemma no_skill_recommended_twice_witness :
  exists s' resp names,
    recommendCareer 1%positive 2%positive by_demand no_coercion
      {| skills := Some ["Node"] |} example_store = (s', Ok resp) /\
    body_field "recommendedSkills" resp
    = Some (JArr (map JObj (map (skillEntry by_demand example_skills) names))) /\
    NoDup names /\
    NoDup (map (obj_get "skill") (map (skillEntry by_demand example_skills) names)).
Proof.
  destruct (no_skill_recommended_twice 1%positive 2%positive by_demand no_coercion
              example_store example_roles example_skills ["Node"])
    as (s' & resp & names & E & Hrecs & Hnd & Hshown).
  - exact example_tables.
  - discriminate.
  - discriminate.
  - intros z [<- | [<- | []]]; apply NoDup_ListNoDup; simpl;
      repeat constructor; simpl; intuition discriminate.
  - exists s', resp, names. repeat (split; [assumption |]).
    apply Hshown. intros k _. unfold overrides. simpl.
    destruct (name_is k _); [reflexivity |].
    destruct (name_is k _); reflexivity.
Defined.

(** * The handler on any [skills] field *)

Lemma bind_meq {A B} (m1 m2 : M A) (k1 k2 : A -> M B) :
  meq m1 m2 -> (forall a, meq (k1 a) (k2 a)) -> meq (bind m1 k1) (bind m2 k2).
Proof.
  intros Hm Hk s. unfold bind. rewrite (Hm s).
  destruct (m2 s) as [s1 [a | | ]]; [apply Hk | reflexivity | reflexivity].
Qed.

Lemma meq_refl {A} (m : M A) : meq m m.
Proof. intros s. reflexivity. Qed.

Lemma mapM_meq {A B} (f1 f2 : A -> M B) (l : list A) :
  (forall x, meq (f1 x) (f2 x)) -> meq (mapM f1 l) (mapM f2 l).
Proof.
  intros Hf. induction l as [| x l IH]; simpl; [apply meq_refl |].
  apply bind_meq; [apply Hf |]. intros y.
  apply bind_meq; [exact IH |]. intros ys. apply meq_refl.
Qed.

Lemma filterM_meq {A} (p1 p2 : A -> M bool) (l : list A) :
  (forall x, meq (p1 x) (p2 x)) -> meq (filterM p1 l) (filterM p2 l).
Proof.
  intros Hp. induction l as [| x l IH]; simpl; [apply meq_refl |].
  apply bind_meq; [apply Hp |]. intros b.
  apply bind_meq; [exact IH |]. intros ys. apply meq_refl.
Qed.

Lemma Array_map_meq {A B} `{Element A} `{Element B} (a : loc) (f1 f2 : A -> M B) :
  (forall x, meq (f1 x) (f2 x)) -> meq (Array_map a f1) (Array_map a f2).
Proof.
  intros Hf. unfold Array_map. apply bind_meq; [apply meq_refl |]. intros xs.
  apply bind_meq; [apply mapM_meq, Hf |]. intros ys. apply meq_refl.
Qed.

Lemma Array_filter_meq {A} `{Element A} (a : loc) (p1 p2 : A -> M bool) :
  (forall x, meq (p1 x) (p2 x)) -> meq (Array_filter a p1) (Array_filter a p2).
Proof.
  intros Hp. unfold Array_filter. apply bind_meq; [apply meq_refl |]. intros xs.
  apply bind_meq; [apply filterM_meq, Hp |]. intros ys. apply meq_refl.
Qed.

Section AnySkillsFacts.

Variable roles : loc.
Variable skillsData : loc.
Variable calculateScore : ScoringFunction.
Variable coerce : JVal -> Number.

Lemma matchedRole_by_meq (has1 has2 : string -> M bool) :
  (forall k, meq (has1 k) (has2 k)) ->
  meq (matchedRole_by roles has1) (matchedRole_by roles has2).
Proof.
  intros Hh. unfold matchedRole_by.
  apply bind_meq; [| intros; apply meq_refl].
  apply Array_map_meq. intros r.
  apply bind_meq; [| intros; apply meq_refl].
  apply Array_filter_meq, Hh.
Qed.

Lemma missingSkills_by_meq (has1 has2 : string -> M bool) (t : option Role) :
  (forall k, meq (has1 k) (has2 k)) ->
  meq (missingSkills_by skillsData calculateScore has1 t)
      (missingSkills_by skillsData calculateScore has2 t).
Proof.
  intros Hh. unfold missingSkills_by.
  apply bind_meq; [apply meq_refl |]. intros target.
  apply bind_meq; [| intros; apply meq_refl].
  apply Array_filter_meq. intros k.
  apply bind_meq; [apply Hh | intros; apply meq_refl].
Qed.

(** A value whose [includes] is membership in the list [us] is handled as
    the list [us]. *)
Lemma recommendCareer_on_list (field : option JVal) (us : list string) :
  no_length (skills_or_empty field) = negb (0 <? length us)%nat ->
  (forall k, includes_of (skills_or_empty field) k = ret (includes us k)) ->
  meq (recommendCareer_on roles skillsData calculateScore coerce field)
      (recommendCareer roles skillsData calculateScore coerce {| skills := Some us |}).
Proof.
  intros Hlen Hinc. unfold recommendCareer_on, recommendCareer.
  cbn [skills default from_option id]. rewrite Hlen.
  destruct (negb (0 <? length us)%nat); [apply meq_refl |].
  apply bind_meq.
  - apply (matchedRole_by_meq _ (fun k => ret (includes us k))).
    intros k. rewrite Hinc. apply meq_refl.
  - intros m. apply bind_meq; [apply meq_refl |]. intros t.
    apply bind_meq; [| intros; apply meq_refl].
    apply (missingSkills_by_meq _ (fun k => ret (includes us k))).
    intros k. rewrite Hinc. apply meq_refl.
Qed.

End AnySkillsFacts.

Lemma existsb_strings_of (k : string) (items : list JVal) :
  existsb (fun e => match e with JStr t => String.eqb k t | _ => false end) items
  = includes (strings_of items) k.
Proof.
  unfold includes.
  induction items as [| [| b | n | t | l | o] items IH]; simpl; try exact IH; [reflexivity |].
  rewrite IH. reflexivity.
Qed.

Lemma strings_of_map (us : list string) : strings_of (map JStr us) = us.
Proof. induction us as [| u us IH]; simpl; [| rewrite IH]; reflexivity. Qed.

Lemma prefix_In (p s : string) : String.prefix p s = true <-> In p (prefixes s).
Proof.
  revert p. induction s as [| a s IH]; intros p.
  - destruct p; simpl; [tauto |]. split; [discriminate |]. intros [E | []]. discriminate.
  - destruct p as [| b p].
    + simpl. tauto.
    + change (prefixes (String a s)) with (EmptyString :: map (String a) (prefixes s)).
      simpl String.prefix. split.
      * destruct (Ascii.ascii_dec b a) as [-> | N]; [| discriminate].
        intros Hp. right. apply List.in_map, IH, Hp.
      * intros [E | Hin]; [discriminate |].
        apply List.in_map_iff in Hin as (q & E & Hq). injection E as Ea Ep. subst b p.
        destruct (Ascii.ascii_dec a a) as [_ | N]; [apply IH, Hq | contradiction].
Qed.

Lemma is_substring_In (p s : string) : is_substring p s = true <-> In p (substrings s).
Proof.
  induction s as [| a s IH].
  - change (is_substring p EmptyString) with (String.prefix p EmptyString || false).
    rewrite orb_false_r, prefix_In. simpl. tauto.
  - change (is_substring p (String a s))
      with (String.prefix p (String a s) || is_substring p s).
    change (substrings (String a s)) with (prefixes (String a s) ++ substrings s).
    rewrite orb_true_iff, List.in_app_iff, prefix_In, IH. tauto.
Qed.

Lemma includes_substrings (t k : string) : includes (substrings t) k = is_substring k t.
Proof.
  apply eq_true_iff_eq. rewrite includes_In, is_substring_In. tauto.
Qed.

(** The role callback when the membership test throws: it throws on a role
    that requires a skill, and finishes on a role that requires none. *)
Lemma role_callback_throws (r : Role) (k : string) (ss : list string) (s : Store) :
  s !! requiredSkills r = Some (AStrings (k :: ss)) ->
  (let* matchedSkills := Array_filter (requiredSkills r)
                           (fun _ : string => (fun s => (s, Throw)) : M bool) in
   let* n := Array_length matchedSkills in
   let* t := Array_length (requiredSkills r) in
   ret {| match_role := role r; matchCount := n; totalRequired := t |}) s
  = (s, Throw).
Proof.
  intros E. unfold bind at 1. unfold Array_filter.
  run_step (Array_read_run (A := string) s (requiredSkills r) (k :: ss) E).
  reflexivity.
Qed.

Lemma role_callback_idle (has : string -> M bool) (r : Role) (s : Store) :
  s !! requiredSkills r = Some (AStrings []) ->
  exists s1 y,
    (let* matchedSkills := Array_filter (requiredSkills r) (fun skill : string => has skill) in
     let* n := Array_length matchedSkills in
     let* t := Array_length (requiredSkills r) in
     ret {| match_role := role r; matchCount := n; totalRequired := t |}) s
    = (s1, Ok y) /\ s ⊆ s1.
Proof.
  intros E.
  assert (Hsub : s ⊆ <[fresh (dom s) := AStrings []]> s).
  { apply insert_subseteq, not_elem_of_dom, is_fresh. }
  exists (<[fresh (dom s) := AStrings []]> s),
         {| match_role := role r; matchCount := 0; totalRequired := 0 |}.
  split; [| exact Hsub].
  assert (E1 : Array_filter (requiredSkills r) (fun skill : string => has skill) s
               = (<[fresh (dom s) := AStrings []]> s, Ok (fresh (dom s)))).
  { unfold Array_filter.
    run_step (Array_read_run (A := string) s (requiredSkills r) [] E). reflexivity. }
  run_step E1.
  run_step (Array_length_run (A := string) _ (fresh (dom s)) []
              (lookup_insert_eq s (fresh (dom s)) (AStrings []))).
  run_step (Array_length_run (A := string) _ (requiredSkills r) []
              (lookup_weaken _ _ _ _ E Hsub)).
  reflexivity.
Qed.

Lemma role_map_throws (s0 : Store) (R : list (Role * list string)) :
  (forall z, In z R -> s0 !! requiredSkills (fst z) = Some (AStrings (snd z))) ->
  (exists z, In z R /\ snd z <> []) ->
  forall s, s0 ⊆ s ->
  snd (mapM (fun role0 : Role =>
         let* matchedSkills := Array_filter (requiredSkills role0)
                                 (fun _ : string => (fun s => (s, Throw)) : M bool) in
         let* n := Array_length matchedSkills in
         let* t := Array_length (requiredSkills role0) in
         ret {| match_role := role role0; matchCount := n; totalRequired := t |})
       (map fst R) s) = Throw.
Proof.
  induction R as [| [r ss] R IH]; intros HR (z & Hz & Hne) s Hs.
  - destruct Hz.
  - pose proof (HR (r, ss) (or_introl eq_refl)) as Er. simpl in Er.
    apply (fun E => lookup_weaken _ _ _ _ E Hs) in Er.
    change (map fst ((r, ss) :: R)) with (r :: map fst R).
    cbn [mapM]. destruct ss as [| k ss].
    + destruct (role_callback_idle (fun _ : string => (fun s => (s, Throw)) : M bool) r s Er)
        as (s1 & y & E1 & Hs1).
      run_step E1.
      assert (Hrest : exists z, In z R /\ snd z <> []).
      { destruct Hz as [<- | Hz]; [contradiction Hne; reflexivity | eauto]. }
      specialize (IH (fun z Hz => HR z (or_intror Hz)) Hrest s1 (transitivity Hs Hs1)).
      unfold bind at 1.
      destruct (mapM _ (map fst R) s1) as [s2 [ys | | ]]; simpl in IH;
        [discriminate | reflexivity | discriminate].
    + unfold bind at 1. rewrite (role_callback_throws r k ss s Er). reflexivity.
Qed.

(** X10.  An array in the [skills] field counts for the strings it holds:
    when it holds at least one, the request is handled exactly as the list
    of its string elements; elements that are not strings match no skill. *)
Theorem array_field_as_its_strings
    (roles skillsData : loc) (calculateScore : ScoringFunction)
    (coerce : JVal -> Number) (items : list JVal) (s : Store) :
  strings_of items <> [] ->
  recommendCareer_on roles skillsData calculateScore coerce (Some (JArr items)) s
  = recommendCareer roles skillsData calculateScore coerce
      {| skills := Some (strings_of items) |} s.
Proof.
  intros Hne. apply recommendCareer_on_list.
  - simpl. destruct items as [| e items]; [contradiction Hne; reflexivity |].
    destruct (strings_of (e :: items)); [contradiction Hne; reflexivity | reflexivity].
  - intros k. simpl. rewrite existsb_strings_of. reflexivity.
Qed.

Lemma array_field_as_its_strings_witness :
  strings_of [JNum (Fin 1); JStr "React"] <> [] /\
  recommendCareer_on 1%positive 2%positive (fun _ => Fin 0) (fun _ => NaN)
    (Some (JArr [JNum (Fin 1); JStr "React"])) example_store
  = recommendCareer 1%positive 2%positive (fun _ => Fin 0) (fun _ => NaN)
      {| skills := Some (strings_of [JNum (Fin 1); JStr "React"]) |} example_store.
Proof.
  assert (H : strings_of [JNum (Fin 1); JStr "React"] <> []) by (simpl; discriminate).
  split; [exact H |].
  exact (array_field_as_its_strings 1%positive 2%positive (fun _ => Fin 0) (fun _ => NaN)
           [JNum (Fin 1); JStr "React"] example_store H).
Defined.

(** X11.  A [skills] field that is neither a string nor an array, and, if
    it is an object, has no truthy [length], is answered with status 400
    like a missing one, the store untouched: this covers [null], [true],
    any number and [{}]. *)
Theorem field_without_length_rejected
    (roles skillsData : loc) (calculateScore : ScoringFunction)
    (coerce : JVal -> Number) (field : option JVal) (s : Store) :
  (forall t, field <> Some (JStr t)) ->
  (forall items, field <> Some (JArr items)) ->
  (forall o w, field = Some (JObj o) -> obj_get "length" o = Some w -> truthy w = false) ->
  recommendCareer_on roles skillsData calculateScore coerce field s
  = (s, Ok (res_status_json 400 (JObj [("message", JStr "Skills are required")]))).
Proof.
  intros Hstr Harr Hobj. unfold recommendCareer_on.
  assert (E : no_length (skills_or_empty field) = true).
  { destruct field as [[| b | n | t | items | o] |]; unfold skills_or_empty.
    - reflexivity.
    - destruct b; reflexivity.
    - destruct (truthy (JNum n)); reflexivity.
    - contradiction (Hstr t). reflexivity.
    - contradiction (Harr items). reflexivity.
    - cbn [truthy no_length].
      destruct (obj_get "length" o) as [w |] eqn:Ew; [| reflexivity].
      rewrite (Hobj o w eq_refl Ew). reflexivity.
    - reflexivity. }
  rewrite E. reflexivity.
Qed.

Lemma field_without_length_rejected_witness :
  recommendCareer_on 1%positive 2%positive (fun _ => Fin 0) (fun _ => NaN)
    (Some (JBool true)) example_store
  = (example_store,
     Ok (res_status_json 400 (JObj [("message", JStr "Skills are required")]))).
Proof.
  apply (field_without_length_rejected 1%positive 2%positive (fun _ => Fin 0) (fun _ => NaN)
           (Some (JBool true)) example_store).
  - intros t; discriminate.
  - intros items; discriminate.
  - intros o w E; discriminate.
Defined.

(** X12.  A non-empty string in the [skills] field passes the check, and a
    required skill then counts as held when it occurs in the string: the
    request is handled exactly as the list of all substrings of it. *)
Theorem string_field_as_substrings
    (roles skillsData : loc) (calculateScore : ScoringFunction)
    (coerce : JVal -> Number) (t : string) (s : Store) :
  t <> EmptyString ->
  recommendCareer_on roles skillsData calculateScore coerce (Some (JStr t)) s
  = recommendCareer roles skillsData calculateScore coerce
      {| skills := Some (substrings t) |} s.
Proof.
  intros Hne. apply recommendCareer_on_list.
  - apply String.eqb_neq in Hne. simpl. rewrite Hne. simpl. rewrite Hne.
    destruct t; reflexivity.
  - intros k. apply String.eqb_neq in Hne. simpl. rewrite Hne. simpl.
    rewrite includes_substrings. reflexivity.
Qed.

Lemma string_field_as_substrings_witness :
  "CSS3" <> EmptyString /\
  recommendCareer_on 1%positive 2%positive (fun _ => Fin 0) (fun _ => NaN)
    (Some (JStr "CSS3")) example_store
  = recommendCareer 1%positive 2%positive (fun _ => Fin 0) (fun _ => NaN)
      {| skills := Some (substrings "CSS3") |} example_store.
Proof.
  assert (H : "CSS3" <> EmptyString) by discriminate.
  split; [exact H |].
  exact (string_field_as_substrings 1%positive 2%positive (fun _ => Fin 0) (fun _ => NaN)
           "CSS3" example_store H).
Defined.

(** X13.  An object with a truthy [length] in the [skills] field passes the
    check but has no [includes]: as soon as some role requires a skill the
    handler throws instead of answering. *)
Theorem object_field_throws
    (roles skillsData : loc) (calculateScore : ScoringFunction)
    (coerce : JVal -> Number) (o : Obj) (w : JVal)
    (s : Store) (R : list (Role * list string)) (S : list Obj) :
  obj_get "length" o = Some w -> truthy w = true ->
  tables_at roles skillsData s R S ->
  (exists z, In z R /\ snd z <> []) ->
  snd (recommendCareer_on roles skillsData calculateScore coerce (Some (JObj o)) s) = Throw.
Proof.
  intros Ew Hw (Hroles & HR & _) Hz. unfold recommendCareer_on.
  cbn [skills_or_empty truthy no_length]. rewrite Ew, Hw. cbn [negb].
  unfold bind at 1. unfold matchedRole_by. unfold bind at 1. unfold Array_map.
  run_step (Array_read_run (A := Role) s roles (map fst R) Hroles).
  rewrite List.Forall_forall in HR.
  pose proof (role_map_throws s R HR Hz s (reflexivity s)) as HT.
  unfold bind at 1. cbn [includes_of].
  destruct (mapM _ (map fst R) s) as [s2 [ys | | ]]; simpl in HT;
    [discriminate | reflexivity | discriminate].
Qed.

Lemma object_field_throws_witness :
  snd (recommendCareer_on 1%positive 2%positive (fun _ => Fin 0) (fun _ => NaN)
         (Some (JObj [("length", JNum (Fin 1))])) example_store) = Throw.
Proof.
  apply (object_field_throws 1%positive 2%positive (fun _ => Fin 0) (fun _ => NaN)
           [("length", JNum (Fin 1))] (JNum (Fin 1)) example_store
           example_roles example_skills).
  - reflexivity.
  - reflexivity.
  - exact example_tables.
  - exists (nth 0 example_roles ({| role := ""; requiredSkills := 1%positive |}, [])).
    split; [simpl; auto | simpl; discriminate].
Defined.

(** * The percentage grows with the match count *)

(** Two roundings, each off by at most half a unit in the last place, leave
    [floor (v + 1/2)] at the exact result or, on an exact half, one below. *)
Lemma two_roundings_near (T M m1 m2 P1 P2 : Z) :
  0 < T <= 2 ^ 44 -> 0 < M -> 2 ^ 52 <= P1 -> 2 ^ 45 <= P2 ->
  2 * m1 * T - T <= 2 * (M * P1) <= 2 * m1 * T + T ->
  2 * m2 * P1 - P1 <= 2 * (m1 * 100 * P2) <= 2 * m2 * P1 + P1 ->
  (200 * M + T) / (2 * T) - 1 <= (2 * m2 + P2) / (2 * P2) <= (200 * M + T) / (2 * T).
Proof.
  intros HT HM0 HP1 HP2 Ha Hb.
  pose proof (Z.div_mod (200 * M + T) (2 * T) ltac:(lia)) as Hq.
  pose proof (Z.mod_pos_bound (200 * M + T) (2 * T) ltac:(lia)) as Hr.
  set (q := (200 * M + T) / (2 * T)) in *.
  set (r := (200 * M + T) mod (2 * T)) in *.
  clearbody q r.
  change (2 ^ 44) with 17592186044416 in HT.
  change (2 ^ 52) with 4503599627370496 in HP1.
  change (2 ^ 45) with 35184372088832 in HP2.
  assert (Hslack : 100 * T * P2 + P1 * T < P1 * P2).
  { assert (200 * T < P1) by lia. assert (2 * T <= P2) by lia.
    assert (100 * T * P2 * 2 < P1 * P2) by (apply (Z.mul_lt_mono_pos_r P2 (200 * T) P1) in H; lia).
    assert (P1 * T * 2 <= P1 * P2) by (apply (Z.mul_le_mono_nonneg_l (2 * T) P2 P1) in H0; lia). lia. }
  assert (HTP2 : 0 <= T * P2) by (apply Z.mul_nonneg_nonneg; lia).
  assert (HP1T : 0 <= P1 * T) by (apply Z.mul_nonneg_nonneg; lia).
  assert (Hlo : 200 * M * P1 * P2 - 100 * T * P2 - P1 * T <= 2 * m2 * P1 * T).
  { assert (200 * M * P1 * P2 - 100 * T * P2 <= 200 * m1 * T * P2).
    { destruct Ha as [_ Ha]. apply (Z.mul_le_mono_nonneg_r _ _ (100 * P2)) in Ha; lia. }
    assert (200 * m1 * P2 * T - P1 * T <= 2 * m2 * P1 * T).
    { destruct Hb as [_ Hb]. apply (Z.mul_le_mono_nonneg_r _ _ T) in Hb; lia. }
    lia. }
  assert (Hhi : 2 * m2 * P1 * T <= 200 * M * P1 * P2 + 100 * T * P2 + P1 * T).
  { assert (200 * m1 * T * P2 <= 200 * M * P1 * P2 + 100 * T * P2).
    { destruct Ha as [Ha _]. apply (Z.mul_le_mono_nonneg_r _ _ (100 * P2)) in Ha; lia. }
    assert (2 * m2 * P1 * T <= 200 * m1 * P2 * T + P1 * T).
    { destruct Hb as [Hb _]. apply (Z.mul_le_mono_nonneg_r _ _ T) in Hb; lia. }
    lia. }
  assert (HPP : 0 < P1 * P2) by (apply Z.mul_pos_pos; lia).
  assert (HM : 200 * M * P1 * P2 = (2 * T * q + r - T) * P1 * P2).
  { replace (200 * M) with (2 * T * q + r - T) by lia. reflexivity. }
  assert (Hr2 : 0 <= r * (P1 * P2)) by (apply Z.mul_nonneg_nonneg; lia).
  assert (Hr3 : r * (P1 * P2) <= (2 * T - 1) * (P1 * P2)).
  { apply Z.mul_le_mono_nonneg_r; lia. }
  assert (HT1 : 1 * (P1 * P2) <= T * (P1 * P2)).
  { apply Z.mul_le_mono_nonneg_r; lia. }
  assert (HPT : 0 < P1 * T) by (apply Z.mul_pos_pos; lia).
  split.
  - apply Z.div_le_lower_bound; [lia |].
    assert (H : 2 * P2 * (q - 1) * (P1 * T) <= (2 * m2 + P2) * (P1 * T)) by lia.
    apply Z.mul_le_mono_pos_r in H; lia.
  - apply Z.lt_succ_r. apply Z.div_lt_upper_bound; [lia |].
    assert (H : (2 * m2 + P2) * (P1 * T) < 2 * P2 * Z.succ q * (P1 * T)) by lia.
    apply Z.mul_lt_mono_pos_r in H; lia.
Qed.

(** The percentage is the exact ratio rounded half up, or one below it. *)
Lemma matchPercentage_near (m t : nat) :
  (0 < t)%nat -> (m <= t)%nat -> Z.of_nat t <= 2 ^ 44 ->
  exists z, matchPercentage m t = Fin (inject_Z z) /\
            exact_percentage m t - 1 <= z <= exact_percentage m t.
Proof.
  intros Ht Hm Hbig. unfold matchPercentage, double_of_nat, double_div.
  replace (Z.of_nat t =? 0) with false by (symmetry; apply Z.eqb_neq; lia).
  replace (Z.max (0 - 0) 0) with 0 by reflexivity.
  rewrite !Z.mul_1_r. unfold exact_percentage.
  destruct m as [| m'].
  { exists 0. split; [reflexivity |].
    rewrite Z.mul_0_r, Z.add_0_l. rewrite Z.div_small by lia. lia. }
  set (m := S m') in *.
  destruct (round_b64_le (Z.of_nat m) (Z.of_nat t) 0 1)
    as (m1 & e1 & E1 & He1 & He1' & Hm1 & Ha); try lia.
  rewrite E1. unfold double_mul.
  replace (Z.max (e1 + 0) 0) with 0 by lia.
  replace (Z.max (- (e1 + 0)) 0) with (- e1) by lia.
  rewrite Z.mul_1_r.
  assert (HP1 : 2 ^ 52 <= 2 ^ (- e1)) by (apply Z.pow_le_mono_r; lia).
  assert (Hm10 : m1 <> 0).
  { intros ->. change (2 ^ 52) with 4503599627370496 in HP1.
    change (2 ^ 44) with 17592186044416 in Hbig. nia. }
  destruct (round_b64_le (m1 * 100) (2 ^ (- e1)) 7 100)
    as (m2 & e2 & E2 & He2 & He2' & Hm2 & Hb); try lia.
  rewrite E2. unfold Math_round.
  replace (0 <=? e2) with false by (symmetry; apply Z.leb_gt; lia).
  eexists. split; [reflexivity |].
  assert (HP2 : 2 ^ 45 <= 2 ^ (- e2)) by (apply Z.pow_le_mono_r; lia).
  replace (- e2 + 1) with (Z.succ (- e2)) by lia.
  rewrite Z.pow_succ_r by lia.
  apply (two_roundings_near (Z.of_nat t) (Z.of_nat m) m1 m2 (2 ^ (- e1)) (2 ^ (- e2)));
    try assumption; lia.
Qed.

(** X14.  For a role of fewer than [2 ^ 32] required skills (the bound on
    an array's length), [Math.round((matchCount / totalRequired) * 100)]
    never goes down when [matchCount] goes up: the two roundings of the
    double computation do not break the order. *)
Theorem percentage_grows_with_matches (m1 m2 t : nat) :
  (0 < t)%nat -> Z.of_nat t < 2 ^ 32 -> (m1 <= m2)%nat -> (m2 <= t)%nat ->
  Number_le (matchPercentage m1 t) (matchPercentage m2 t).
Proof.
  intros Ht Hlen H12 H2t.
  assert (Hbig : Z.of_nat t <= 2 ^ 44).
  { change (2 ^ 32) with 4294967296 in Hlen. change (2 ^ 44) with 17592186044416. lia. }
  destruct (matchPercentage_near m1 t Ht ltac:(lia) Hbig) as (z1 & E1 & Hz1).
  destruct (matchPercentage_near m2 t Ht H2t Hbig) as (z2 & E2 & Hz2).
  destruct (Nat.eq_dec m1 m2) as [-> | Hneq].
  { rewrite E1. simpl. apply Qle_refl. }
  rewrite E1, E2. simpl. rewrite <- Zle_Qle.
  assert (Hmono : exact_percentage m1 t <= exact_percentage m2 t).
  { unfold exact_percentage. apply Z.div_le_mono; lia. }
  destruct (Z.eq_dec ((200 * Z.of_nat m2 + Z.of_nat t) mod (2 * Z.of_nat t)) 0)
    as [Htie | Hno].
  - assert (Hstrict : exact_percentage m1 t < exact_percentage m2 t).
    { unfold exact_percentage.
      pose proof (Z.div_mod (200 * Z.of_nat m2 + Z.of_nat t) (2 * Z.of_nat t) ltac:(lia)) as Hq.
      rewrite Htie, Z.add_0_r in Hq.
      apply Z.div_lt_upper_bound; [lia |]. rewrite <- Hq. lia. }
    lia.
  - pose proof (matchPercentage_exact m2 t Ht H2t Hbig Hno) as E2'.
    rewrite E2 in E2'. injection E2' as E2'. lia.
Qed.

Lemma percentage_grows_with_matches_witness :
  Number_le (matchPercentage 22 40) (matchPercentage 23 40).
Proof.
  apply (percentage_grows_with_matches 22 23 40); [lia | reflexivity | lia | lia].
Defined.

(** * Skills that tie *)

Lemma stable_sort_tied {A} (cmp : A -> A -> Number) (l : list A) :
  (forall a b, In a l -> In b l -> sort_sign (cmp a b) <> Gt) ->
  stable_sort cmp l = l.
Proof.
  induction l as [| x l IH]; intros Hc; [reflexivity |].
  change (stable_sort cmp (x :: l)) with (sort_insert cmp x (stable_sort cmp l)).
  rewrite IH by (intros a b Ha Hb; apply Hc; simpl; auto).
  destruct l as [| y l']; [reflexivity |]. simpl.
  destruct (sort_sign (cmp x y)) eqn:E; try reflexivity.
  contradiction (Hc x y); simpl; auto.
Qed.

Lemma sort_sign_same (v : Number) : sort_sign (Number_sub v v) = Eq.
Proof.
  destruct v as [| | q |]; try reflexivity.
  simpl. rewrite Qcompare_sub. apply Qeq_alt. reflexivity.
Qed.

(** X15.  When all the required skills carry one and the same score, be it
    a number, an infinity or NaN, the comparison function tells no two
    entries apart and the sort leaves them where they are:
    [recommendedSkills] holds the first three missing skills in the order
    of the role's [requiredSkills]. *)
Theorem equal_scores_keep_table_order
    (roles skillsData : loc) (calculateScore : ScoringFunction)
    (coerce : JVal -> Number) (s : Store) (R : list (Role * list string))
    (S : list Obj) (us : list string) (v : Number) :
  tables_at roles skillsData s R S -> us <> [] -> R <> [] ->
  (forall x k, In x R -> In k (snd x) ->
               score_carried calculateScore coerce S k = v) ->
  exists s' resp i x y,
    recommendCareer roles skillsData calculateScore coerce {| skills := Some us |} s
    = (s', Ok resp) /\
    first_maximal us R i x /\
    In y R /\ role (fst y) = role (fst x) /\
    body_field "recommendedSkills" resp
    = Some (JArr (map JObj (map (skillEntry calculateScore S)
                              (take 3 (missing_of us (snd y)))))).
Proof.
  intros HT Hus HR Hsame.
  destruct (recommendCareer_result roles skillsData calculateScore coerce s R S us HT Hus HR)
    as (s' & i & x & y & _ & Hmax & Hy & Hname & _ & E).
  exists s'. eexists. exists i, x, y.
  split; [exact E |]. repeat (split; [assumption |]).
  rewrite ranked_names, stable_sort_tied; [reflexivity |].
  intros a b Ha Hb.
  apply In_missing_of in Ha as [Ha _]. apply In_missing_of in Hb as [Hb _].
  rewrite (Hsame y a Hy Ha), (Hsame y b Hy Hb), sort_sign_same. discriminate.
Qed.

Lemma equal_scores_keep_table_order_witness :
  exists s' resp i x y,
    recommendCareer 1%positive 2%positive (fun _ => NaN) no_coercion
      {| skills := Some ["SQL"] |} example_store = (s', Ok resp) /\
    first_maximal ["SQL"] example_roles i x /\
    In y example_roles /\ role (fst y) = role (fst x) /\
    body_field "recommendedSkills" resp
    = Some (JArr (map JObj (map (skillEntry (fun _ => NaN) example_skills)
                              (take 3 (missing_of ["SQL"] (snd y)))))).
Proof.
  apply (equal_scores_keep_table_order 1%positive 2%positive (fun _ => NaN) no_coercion
           example_store example_roles example_skills ["SQL"] NaN).
  - exact example_tables.
  - discriminate.
  - discriminate.
  - intros x k [<- | [<- | []]]; simpl.
    + intros [<- | [<- | [<- | []]]]; reflexivity.
    + intros [<- | [<- | []]]; reflexivity.
Defined.

(** * An array that holds no string *)

Section AnySkillsRun.

Variable roles : loc.
Variable skillsData : loc.
Variable calculateScore : ScoringFunction.
Variable coerce : JVal -> Number.

(** A field that passes the check and whose [includes] is membership in
    the list [us], empty or not, gets the answer the tables give for [us]. *)
Lemma recommendCareer_on_run s0 R S (field : option JVal) (us : list string) :
  tables_at roles skillsData s0 R S ->
  no_length (skills_or_empty field) = false ->
  (forall k, includes_of (skills_or_empty field) k = ret (includes us k)) ->
  exists s', s0 ⊆ s' /\
    recommendCareer_on roles skillsData calculateScore coerce field s0
    = (s', answer calculateScore coerce us R S).
Proof.
  intros HT Hlen Hinc. unfold recommendCareer_on, answer. cbv zeta. rewrite Hlen.
  set (U := skills_or_empty field) in *.
  assert (Hhas : forall k, meq (includes_of U k) (ret (includes us k)))
    by (intros k; rewrite Hinc; apply meq_refl).
  destruct (matchedRole_run roles skillsData s0 R S us s0 HT (reflexivity s0))
    as (s1 & Hs1 & E1).
  run_step (eq_trans (matchedRole_by_meq roles _ _ Hhas s0) E1).
  destruct (stable_sort by_matchCount (map (roleMatch us) R) !! 0%nat) as [m |] eqn:Em.
  - destruct (targetRole_run roles skillsData s0 R S m s1 HT Hs1) as (s2 & Hs2 & E2).
    run_step E2. rewrite find_map_fst.
    destruct (List.find (fun x => same_role m (fst x)) R) as [x |] eqn:Ex.
    + apply List.find_some in Ex as [Hx _]. cbn [option_map].
      destruct (missingSkills_run roles skillsData calculateScore s0 R S us x s2 HT Hx Hs2)
        as (s3 & a & Hs3 & Hfresh & Ha & E3).
      run_step (eq_trans (missingSkills_by_meq skillsData calculateScore _ _
                            (Some (fst x)) Hhas s2) E3).
      destruct (hoare_Array_sort (EA := Element_Obj) s0 a
                  (map (skillEntry calculateScore S) (missing_of us (snd x))) (by_score coerce)
                  Hfresh s3 (conj Hs3 Ha))
        as (s4 & ? & E4 & -> & Hs4 & Hrecs).
      unfold sortedRecommendations. run_step E4.
      change (bind (deref (Some m)) ?k s4) with (k m s4). cbv beta.
      destruct (hoare_Array_slice (A := Obj) s0 a _ 0 3 s4 (conj Hs4 Hrecs))
        as (s5 & top & E5 & Hs5 & Htop & _).
      run_step E5.
      run_step (Array_read_run s5 top _ Htop).
      exists s5. split; [exact Hs5 | reflexivity].
    + exists s2. split; [exact Hs2 | reflexivity].
  - assert (HR0 : R = []).
    { apply lookup_ge_None in Em. rewrite stable_sort_length, length_map in Em.
      destruct R; [reflexivity | simpl in Em; lia]. }
    subst R. run_step (targetRole_run_empty roles skillsData s0 S s1 HT Hs1).
    exists s1. split; [exact Hs1 | reflexivity].
Qed.

End AnySkillsRun.

(** X16.  A non-empty array that holds no string (numbers, [null], nested
    arrays) passes the check and matches nothing: the first role of the
    table is answered with 0 percent (the role requiring something); the
    recommendations are entries built for required skills of that role, as
    many as it requires and three at most; and when the scores these
    skills carry are numbers, they are the first three of all its required
    skills in descending order of carried score. *)
Theorem array_without_strings
    (roles skillsData : loc) (calculateScore : ScoringFunction)
    (coerce : JVal -> Number) (s : Store) (x : Role * list string)
    (R' : list (Role * list string)) (S : list Obj) (items : list JVal) :
  tables_at roles skillsData s (x :: R') S ->
  items <> [] -> strings_of items = [] -> snd x <> [] ->
  exists recs,
    snd (recommendCareer_on roles skillsData calculateScore coerce (Some (JArr items)) s)
    = Ok {| status := 200;
            body := JObj [("role", JStr (role (fst x)));
                          ("matchPercentage", JNum (Fin 0));
                          ("recommendedSkills", JArr (map JObj recs))] |} /\
    length recs = Nat.min 3 (length (snd x)) /\
    (forall e, In e recs ->
       exists k, In k (snd x) /\ e = skillEntry calculateScore S k) /\
    ((forall k, In k (snd x) -> score_carried calculateScore coerce S k <> NaN) ->
     exists names,
       recs = map (skillEntry calculateScore S) (take 3 names) /\
       Permutation names (snd x) /\
       StronglySorted
         (fun a b => Number_le (score_carried calculateScore coerce S b)
                               (score_carried calculateScore coerce S a)) names).
Proof.
  intros HT Hitems Hnone Hne.
  destruct (recommendCareer_on_run roles skillsData calculateScore coerce s (x :: R') S
              (Some (JArr items)) [] HT)
    as (s' & _ & E).
  { destruct items; [contradiction | reflexivity]. }
  { intros k. simpl. rewrite existsb_strings_of, Hnone. reflexivity. }
  assert (Hfm : first_maximal [] (x :: R') 0 x).
  { split; [reflexivity |]. split.
    - intros z Hz. unfold matchCount_of. rewrite filter_none by reflexivity. simpl. lia.
    - intros j z Hj. lia. }
  assert (Hm : missing_of [] (snd x) = snd x).
  { unfold missing_of. apply filter_all. reflexivity. }
  destruct (answer_at calculateScore coerce (x :: R') S [] 0 x Hfm)
    as (y & _ & _ & Hy & Ea).
  rewrite (Hy (or_intror eq_refl)) in Ea.
  exists (ranked calculateScore coerce S [] x). split.
  - rewrite E, Ea. unfold result_body, roleMatch, res_json, res_status_json.
    cbn [snd match_role matchCount totalRequired].
    rewrite (filter_none (includes []) (snd x)) by reflexivity.
    change (length (@nil string)) with 0%nat.
    rewrite matchPercentage_none by (destruct (snd x); [contradiction | simpl; lia]).
    reflexivity.
  - exact (ranked_of_all calculateScore coerce S [] x Hm).
Qed.

Lemma array_without_strings_witness :
  exists recs names,
    snd (recommendCareer_on 1%positive 2%positive by_demand no_coercion
           (Some (JArr [JNull; JNum (Fin 7)])) example_store)
    = Ok {| status := 200;
            body := JObj [("role", JStr "Backend Developer");
                          ("matchPercentage", JNum (Fin 0));
                          ("recommendedSkills", JArr (map JObj recs))] |} /\
    length recs = 3%nat /\
    recs = map (skillEntry by_demand example_skills) (take 3 names) /\
    Permutation names ["Node"; "SQL"; "Docker"] /\
    StronglySorted
      (fun a b => Number_le (score_carried by_demand no_coercion example_skills b)
                            (score_carried by_demand no_coercion example_skills a)) names.
Proof.
  destruct (array_without_strings 1%positive 2%positive by_demand no_coercion
              example_store
              ({| role := "Backend Developer"; requiredSkills := 3%positive |},
               ["Node"; "SQL"; "Docker"])
              [({| role := "Frontend Developer"; requiredSkills := 4%positive |},
                ["React"; "CSS"])]
              example_skills [JNull; JNum (Fin 7)])
    as (recs & E & Hlen & _ & Hsorted).
  - exact example_tables.
  - discriminate.
  - reflexivity.
  - discriminate.
  - destruct Hsorted as (names & Erecs & Hperm & Hs).
    { intros k Hk. simpl in Hk.
      repeat (destruct Hk as [<- | Hk]; [vm_compute; discriminate |]). destruct Hk. }
    exists recs, names. auto.
Defined.
